(** * Maintenance scripts of the ai-trader-agent repository

    A shallow embedding of [combine_utils.py], [remove_facade.py],
    [restore_facade.py] and [update_utils.py], and the properties of the
    written specification that concern them.

    Text is modelled at the level of Python's [str]: a file's content is the
    string that [file.read()] returns and that [file.write] receives, one
    [ascii] per code point of U+0000..U+00FF.  The file system is a finite map
    from file names to contents; the console is the list of printed lines. *)

From Stdlib Require Import Ascii String NArith Bool Arith Lia.
From stdpp Require Import gmap strings list.

#[local] Open Scope string_scope.
#[local] Open Scope list_scope.
#[local] Open Scope nat_scope.

(** ** Characters that cannot be written inside a literal *)

Definition nl : ascii := "010"%char.
Definition dq : ascii := "034"%char.
Definition sq : ascii := "'"%char.

(** ** The methods of [str] the scripts call *)

Module Str.

(** [s.startswith(p)] *)
Fixpoint startswith (s p : string) {struct p} : bool :=
  match p with
  | EmptyString => true
  | String a p' =>
      match s with
      | EmptyString => false
      | String b s' => Ascii.eqb a b && startswith s' p'
      end
  end.

(** [sub in s] *)
Fixpoint contains (sub s : string) : bool :=
  startswith s sub ||
  match s with
  | EmptyString => false
  | String _ t => contains sub t
  end.

(** [s[:n]] *)
Fixpoint take (n : nat) (s : string) : string :=
  match n, s with
  | S n', String c t => String c (take n' t)
  | _, _ => EmptyString
  end.

(** [s[n:]] *)
Fixpoint drop (n : nat) (s : string) : string :=
  match n, s with
  | S n', String _ t => drop n' t
  | _, _ => s
  end.

(** [s.find(sub)]: the index of the first occurrence, [None] for -1. *)
Fixpoint find (sub s : string) : option nat :=
  if startswith s sub then Some 0
  else
    match s with
    | EmptyString => None
    | String _ t => S <$> find sub t
    end.

(** [s.endswith(suffix)] *)
Fixpoint endswith (s suffix : string) : bool :=
  String.eqb s suffix ||
  match s with
  | EmptyString => false
  | String _ t => endswith t suffix
  end.

(** [c in s] for a single character [c]. *)
Fixpoint has_char (c : ascii) (s : string) : bool :=
  match s with
  | EmptyString => false
  | String a t => Ascii.eqb a c || has_char c t
  end.

(** The scan of [replace], and of [split] below: [skip] counts the characters
    of the occurrence found last that are still to be passed over. *)
Fixpoint replace_go (old new : string) (skip : nat) (s : string) : string :=
  match s with
  | EmptyString => EmptyString
  | String c t =>
      match skip with
      | S k => replace_go old new k t
      | O =>
          if startswith s old
          then new +:+ replace_go old new (String.length old - 1) t
          else String c (replace_go old new 0 t)
      end
  end.

(** With an empty [old], [new] is put before every character and at the end. *)
Fixpoint intersperse (new s : string) : string :=
  match s with
  | EmptyString => new
  | String c t => new +:+ String c (intersperse new t)
  end.

(** [s.replace(old, new)]: every occurrence found by one scan from the
    left, occurrences not overlapping. *)
Definition replace (old new s : string) : string :=
  match old with
  | EmptyString => intersperse new s
  | String _ _ => replace_go old new 0 s
  end.

Fixpoint split_go (sep : string) (skip : nat) (s : string) : list string :=
  match s with
  | EmptyString => [EmptyString]
  | String c t =>
      match skip with
      | S k => split_go sep k t
      | O =>
          if startswith s sep
          then EmptyString :: split_go sep (String.length sep - 1) t
          else
            match split_go sep 0 t with
            | seg :: segs => String c seg :: segs
            | [] => [String c EmptyString]
            end
      end
  end.

(** [s.split(sep)]; [None] stands for the [ValueError] of an empty
    separator. *)
Definition split (sep s : string) : option (list string) :=
  match sep with
  | EmptyString => None
  | String _ _ => Some (split_go sep 0 s)
  end.

End Str.

(** ** The fragment of [re] the Reference Updater uses *)

Module Re.

(** Pattern syntax.  A non-capturing group [(?:r)] is [r] itself. *)
Inductive regex : Type :=
| Empty
| Chr (c : ascii)                       (* a literal, also an escaped one *)
| In (negate : bool) (cs : list ascii)  (* [...] and [^...] *)
| Boundary                              (* \b *)
| Cat (r1 r2 : regex)
| Alt (r1 r2 : regex)                   (* r1|r2 *)
| Plus (r : regex)                      (* r+, greedy *)
| Group (n : nat) (r : regex).          (* the n-th capturing group *)

(** A run of literal characters. *)
Fixpoint lit (s : string) : regex :=
  match s with
  | EmptyString => Empty
  | String c EmptyString => Chr c
  | String c t => Cat (Chr c) (lit t)
  end.

(** [\w] on a [str] pattern: [ch.isalnum() or ch == '_'].  Besides the
    ASCII letters and digits, the alphanumeric code points below U+0100 are
    the letters and the superscript digits and fractions of Latin-1. *)
Definition is_word (c : ascii) : bool :=
  let n := N_of_ascii c in
  ((48 <=? n) && (n <=? 57)          (* 0-9 *)
   || (65 <=? n) && (n <=? 90)       (* A-Z *)
   || (n =? 95)                      (* _ *)
   || (97 <=? n) && (n <=? 122)      (* a-z *)
   || (n =? 170) || (n =? 178) || (n =? 179) || (n =? 181)
   || (n =? 185) || (n =? 186)
   || (188 <=? n) && (n <=? 190)
   || (192 <=? n) && (n <=? 214)
   || (216 <=? n) && (n <=? 246)
   || (248 <=? n))%N.

Definition is_word_at (c : option ascii) : bool :=
  match c with
  | Some a => is_word a
  | None => false
  end.

Definition next_char (s : string) : option ascii :=
  match s with
  | EmptyString => None
  | String c _ => Some c
  end.

(** Captured groups, most recent first. *)
Definition captures : Type := list (nat * string).

(** The backtracking matcher, in continuation-passing style: [prev] is the
    character before the current position, [s] the text from the current
    position on, and [k] tries the rest of the pattern; [None] makes the
    caller take its next alternative.  A greedy [+] tries its body once more
    after the first round, and after a later round that consumed something;
    the rest of the pattern is tried when no further round succeeds.  The
    fuel of its loop is more than the rounds the text allows. *)
Fixpoint run {R : Type} (r : regex) (prev : option ascii) (s : string)
    (caps : captures)
    (k : option ascii -> string -> captures -> option R) {struct r} : option R :=
  match r with
  | Empty => k prev s caps
  | Chr c =>
      match s with
      | String a t => if Ascii.eqb a c then k (Some a) t caps else None
      | EmptyString => None
      end
  | In negate cs =>
      match s with
      | String a t =>
          if xorb negate (existsb (Ascii.eqb a) cs)
          then k (Some a) t caps else None
      | EmptyString => None
      end
  | Boundary =>
      if xorb (is_word_at prev) (is_word_at (next_char s))
      then k prev s caps else None
  | Cat r1 r2 =>
      run r1 prev s caps (fun prev' s' caps' => run r2 prev' s' caps' k)
  | Alt r1 r2 =>
      match run r1 prev s caps k with
      | Some x => Some x
      | None => run r2 prev s caps k
      end
  | Plus r1 =>
      (fix loop (fuel : nat) (first : bool) (prev : option ascii) (s : string)
           (caps : captures) {struct fuel} : option R :=
         match fuel with
         | O => None
         | S fuel' =>
             run r1 prev s caps (fun prev' s' caps' =>
               let again :=
                 if first || (String.length s' <? String.length s)
                 then loop fuel' false prev' s' caps' else None in
               match again with
               | Some x => Some x
               | None => k prev' s' caps'
               end)
         end) (S (S (String.length s))) true prev s caps
  | Group n r1 =>
      run r1 prev s caps (fun prev' s' caps' =>
        k prev' s' ((n, Str.take (String.length s - String.length s') s) :: caps'))
  end.

(** A match object: the matched text, the captured groups, the text after
    the match. *)
Record match_object : Type := MatchObject {
  matched : string;
  groups : captures;
  after : string
}.

(** [m.group(n)] for [n >= 1]; [None] when the group took no part. *)
Fixpoint lookup_group (n : nat) (caps : captures) : option string :=
  match caps with
  | [] => None
  | (i, s) :: rest => if n =? i then Some s else lookup_group n rest
  end.

Definition group (m : match_object) (n : nat) : option string :=
  match n with
  | O => Some (matched m)
  | S _ => lookup_group n (groups m)
  end.

(** What an f-string prints for [m.group(n)]. *)
Definition fmt (v : option string) : string :=
  match v with
  | Some s => s
  | None => "None"
  end.

(** A match that starts exactly at the current position.  With
    [must_advance] an empty match is refused (and the matcher backtracks). *)
Definition match_here (pattern : regex) (must_advance : bool)
    (prev : option ascii) (s : string) : option match_object :=
  run pattern prev s [] (fun _ s' caps =>
    if must_advance && (String.length s' =? String.length s)
    then None
    else Some (MatchObject
                 (Str.take (String.length s - String.length s') s) caps s')).

(** [re.sub(pattern, repl, s)] with a function [repl]: the text is scanned
    from the left, each match is replaced by [repl m] and the scan resumes
    after it; [skip] counts the characters of the last match still to be
    passed over.  After an empty match the next match at the same position
    must not be empty. *)
Fixpoint sub_go (pattern : regex) (repl : match_object -> string)
    (skip : nat) (prev : option ascii) (s : string) : string :=
  match s with
  | EmptyString =>
      match skip with
      | O =>
          match match_here pattern false prev s with
          | Some m => repl m
          | None => EmptyString
          end
      | S _ => EmptyString
      end
  | String c t =>
      match skip with
      | S k => sub_go pattern repl k (Some c) t
      | O =>
          match match_here pattern false prev s with
          | Some m =>
              match String.length (matched m) with
              | S k => repl m +:+ sub_go pattern repl k (Some c) t
              | O =>
                  repl m +:+
                  match match_here pattern true prev s with
                  | Some m' =>
                      repl m' +:+
                      sub_go pattern repl (String.length (matched m') - 1) (Some c) t
                  | None => String c (sub_go pattern repl 0 (Some c) t)
                  end
              end
          | None => String c (sub_go pattern repl 0 (Some c) t)
          end
      end
  end.

Definition sub (pattern : regex) (repl : match_object -> string)
    (s : string) : string :=
  sub_go pattern repl 0 None s.

End Re.

(** ** The file system, the console and the exceptions *)

Inductive exn : Type :=
| FileNotFoundError (filename : string)
| ValueError
| IndexError.

Record world : Type := World {
  files : gmap string string;   (* file name -> content *)
  stdout : list string          (* printed lines, oldest first *)
}.

(** A script step: it ends with a value or raises, and leaves a world either
    way (what was written before an exception stays written). *)
Definition M (A : Type) : Type := world -> (exn + A) * world.

#[global] Instance M_ret : MRet M := fun A (a : A) w => (inr a, w).
#[global] Instance M_bind : MBind M := fun A B (f : A -> M B) (c : M A) w =>
  match c w with
  | (inr a, w') => f a w'
  | (inl e, w') => (inl e, w')
  end.

Definition raise {A : Type} (e : exn) : M A := fun w => (inl e, w).

(** [with open(filename, 'r') as f: content = f.read()] *)
Definition read_file (filename : string) : M string := fun w =>
  match files w !! filename with
  | Some content => (inr content, w)
  | None => (inl (FileNotFoundError filename), w)
  end.

(** [with open(filename, 'w') as f: f.write(content)] *)
Definition write_file (filename content : string) : M unit := fun w =>
  (inr tt, World (<[filename := content]> (files w)) (stdout w)).

(** [os.remove(filename)] *)
Definition os_remove (filename : string) : M unit := fun w =>
  match files w !! filename with
  | Some _ => (inr tt, World (delete filename (files w)) (stdout w))
  | None => (inl (FileNotFoundError filename), w)
  end.

(** [os.path.exists(filename)] *)
Definition os_path_exists (filename : string) : M bool := fun w =>
  (inr (bool_decide (is_Some (files w !! filename))), w).

(** [print(line)] *)
Definition print (line : string) : M unit := fun w =>
  (inr tt, World (files w) (stdout w ++ [line])).

(** [s.split(sep)] as a step. *)
Definition str_split (s sep : string) : M (list string) :=
  match Str.split sep s with
  | Some parts => mret parts
  | None => raise ValueError
  end.

(** [parts[i]] for [i >= 0]. *)
Definition item (parts : list string) (i : nat) : M string :=
  match parts !! i with
  | Some x => mret x
  | None => raise IndexError
  end.

(** [for x in xs: body(x)] *)
Fixpoint for_each {A : Type} (xs : list A) (body : A -> M unit) : M unit :=
  match xs with
  | [] => mret tt
  | x :: xs' => body x ;; for_each xs' body
  end.

(** The marker both facade scripts split at. *)
Definition MARKER : string := "// Export all functions directly".

(** ** combine_utils.py *)

Module CombineUtils.

Definition combine_files : M unit :=
  utils_content ← read_file "Utils.gs";
  main_content ← read_file "Utils_Main.gs";
  parts ← str_split main_content "// Export all functions directly";
  head ← item parts 0;
  let combined_content :=
    head +:+ (String nl "// Export all functions directly" +:+ String nl "")
         +:+ utils_content in
  write_file "Utils_Main.gs" combined_content;;
  os_remove "Utils.gs".

Definition main : M unit := combine_files.

End CombineUtils.

(** ** remove_facade.py *)

Module RemoveFacade.

Definition update_file_content (filename : string) : M unit :=
  content ← read_file filename;
  let content := Str.replace "Utils_Main" "" content in
  write_file filename content.

Definition files_to_update : list string :=
  [ "Code.gs"; "Config.gs"; "DataRetrieval.gs"; "Email.gs";
    "FetchEconomicEvents.gs"; "FundamentalMetrics.gs"; "GoogleSearch.gs";
    "KeyMarketIndicators.gs"; "MacroeconomicFactors.gs";
    "MarketSentiment.gs"; "Prompt.gs"; "Setup.gs"; "StockDataRetriever.gs" ].

Definition update_each : M unit :=
  for_each files_to_update (fun filename =>
    e ← os_path_exists filename;
    if (e : bool)
    then update_file_content filename;; print ("Updated: " +:+ filename)
    else mret tt).

Definition main : M unit :=
  update_each;;
  os_remove "Utils_Main.gs".

End RemoveFacade.

(** ** restore_facade.py *)

Module RestoreFacade.

(** Each line followed by a line feed. *)
Fixpoint lines (ls : list string) : string :=
  match ls with
  | [] => ""
  | l :: ls' => l +:+ String nl (lines ls')
  end.

(** The triple-quoted literal appended to the import section; it opens with
    a line feed. *)
Definition FACADE_BLOCK : string := lines [
  "";
  "// Export all functions directly";
  "Object.assign(this, {";
  "  enhancedCleanAnalysisResult: CoreUtils.enhancedCleanAnalysisResult,";
  "  testEnhancedJsonParsing: CoreUtils.testEnhancedJsonParsing,";
  "  formatHtmlEmailBodyWithAnalysis: EmailUtils.formatHtmlEmailBodyWithAnalysis,";
  "  generateEmailTemplate: EmailUtils.generateEmailTemplate,";
  "  generateMarketSentimentSection: MarketSentiment.generateMarketSentimentSection,";
  "  generateMarketIndicatorsSection: MarketIndicators.generateMarketIndicatorsSection,";
  "  generateFundamentalMetricsSection: FundamentalMetrics.generateFundamentalMetricsSection,";
  "  generateMacroeconomicFactorsSection: MacroeconomicFactors.generateMacroeconomicFactorsSection,";
  "  generateGeopoliticalRisksSection: GeopoliticalRisks.generateGeopoliticalRisksSection,";
  "  formatDate: DataUtils.formatDate,";
  "  formatValue: DataUtils.formatValue,";
  "  formatNumberWithSuffix: DataUtils.formatNumberWithSuffix,";
  "  saveToGoogleDrive: DataUtils.saveToGoogleDrive,";
  "  retrieveMacroeconomicFactors: MacroeconomicFactors.retrieveMacroeconomicFactors,";
  "  retrieveTreasuryYields: MacroeconomicFactors.retrieveTreasuryYields,";
  "  retrieveInflationData: MacroeconomicFactors.retrieveInflationData,";
  "  retrieveFedPolicy: MacroeconomicFactors.retrieveFedPolicy";
  "});" ].

Definition restore_facade : M unit :=
  content ← read_file "Utils_Main.gs";
  parts ← str_split content "// Export all functions directly";
  import_section ← item parts 0;
  let new_content := import_section +:+ FACADE_BLOCK in
  write_file "Utils_Main.gs" new_content.

Definition main : M unit := restore_facade.

End RestoreFacade.

(** ** update_utils.py *)

Module UpdateUtils.
Import Re.

(** The class of the two quote characters, written with the double quote
    first in the source ([dq] below stands for it). *)
Definition quote : regex := In false [dq; sq].

(** [r'include\((?:[dq\'])([^\dq\']+)(?:[dq\'])\)'] *)
Definition INCLUDE : regex :=
  Cat (lit "include")
    (Cat (Chr "(")
      (Cat quote
        (Cat (Group 1 (Plus (In true [dq; sq])))
          (Cat quote (Chr ")"))))).

(** [(\b(?:Core|Email|Analysis|Data)Utils\b)] *)
Definition VARIABLES : regex :=
  Group 1
    (Cat Boundary
      (Cat (Alt (lit "Core") (Alt (lit "Email") (Alt (lit "Analysis") (lit "Data"))))
        (Cat (lit "Utils") Boundary))).

(** [(\b(?:FundamentalMetrics|MacroeconomicFactors|MarketIndicators|MarketSentiment|GeopoliticalRisks)\b)] *)
Definition SECTIONS : regex :=
  Group 1
    (Cat Boundary
      (Cat (Alt (lit "FundamentalMetrics")
             (Alt (lit "MacroeconomicFactors")
               (Alt (lit "MarketIndicators")
                 (Alt (lit "MarketSentiment") (lit "GeopoliticalRisks")))))
        Boundary)).

(** Update include statements *)
Definition pass1 (content : string) : string :=
  sub INCLUDE
    (fun m => "include(" +:+ String dq ("Utils_" +:+ fmt (group m 1)
                                        +:+ String dq ")"))
    content.

(** Update variable references *)
Definition pass2 (content : string) : string :=
  sub VARIABLES (fun m => "Utils_" +:+ fmt (group m 1)) content.

(** Update section references *)
Definition pass3 (content : string) : string :=
  sub SECTIONS (fun m => "Utils_" +:+ fmt (group m 1)) content.

Definition update_file_content (filename : string) : M unit :=
  content ← read_file filename;
  let content := pass1 content in
  let content := pass2 content in
  let content := pass3 content in
  write_file filename content.

Definition files_to_update : list string :=
  [ "Code.gs"; "Config.gs"; "DataRetrieval.gs"; "Email.gs";
    "FetchEconomicEvents.gs"; "FundamentalMetrics.gs"; "GoogleSearch.gs";
    "KeyMarketIndicators.gs"; "MacroeconomicFactors.gs";
    "MarketSentiment.gs"; "Prompt.gs"; "Setup.gs"; "StockDataRetriever.gs" ].

Definition main : M unit :=
  for_each files_to_update (fun filename =>
    e ← os_path_exists filename;
    if (e : bool)
    then update_file_content filename;; print ("Updated: " +:+ filename)
    else mret tt).

End UpdateUtils.

(** ** Definitions used to state the properties *)

(** The part of [s] before the first occurrence of the marker: [s] itself
    when the marker does not occur. *)
Definition before_marker (s : string) : string :=
  match Str.find MARKER s with
  | Some i => Str.take i s
  | None => s
  end.

(** The marker on a line of its own, as both facade scripts write it. *)
Definition MARKER_LINE : string :=
  String nl MARKER +:+ String nl "".

(** The text of a file from its first marker on; empty without a marker. *)
Definition from_marker (s : string) : string :=
  match Str.find MARKER s with
  | Some i => Str.drop i s
  | None => ""
  end.

(** The mapping the facade block spells out: exported name and the module
    that qualifies it. *)
Definition EXPORTS : list (string * string) :=
  [ ("enhancedCleanAnalysisResult", "CoreUtils");
    ("testEnhancedJsonParsing", "CoreUtils");
    ("formatHtmlEmailBodyWithAnalysis", "EmailUtils");
    ("generateEmailTemplate", "EmailUtils");
    ("generateMarketSentimentSection", "MarketSentiment");
    ("generateMarketIndicatorsSection", "MarketIndicators");
    ("generateFundamentalMetricsSection", "FundamentalMetrics");
    ("generateMacroeconomicFactorsSection", "MacroeconomicFactors");
    ("generateGeopoliticalRisksSection", "GeopoliticalRisks");
    ("formatDate", "DataUtils");
    ("formatValue", "DataUtils");
    ("formatNumberWithSuffix", "DataUtils");
    ("saveToGoogleDrive", "DataUtils");
    ("retrieveMacroeconomicFactors", "MacroeconomicFactors");
    ("retrieveTreasuryYields", "MacroeconomicFactors");
    ("retrieveInflationData", "MacroeconomicFactors");
    ("retrieveFedPolicy", "MacroeconomicFactors") ].

(** One entry of the object literal: [  name: Module.name]. *)
Definition entry (e : string * string) : string :=
  "  " +:+ e.1 +:+ ": " +:+ e.2 +:+ "." +:+ e.1.

(** Entries separated by a comma and a line feed. *)
Fixpoint entries (es : list (string * string)) : string :=
  match es with
  | [] => ""
  | [e] => entry e
  | e :: es' => entry e +:+ String "," (String nl (entries es'))
  end.

(** The [Object.assign] statement over a list of entries. *)
Definition object_assign (es : list (string * string)) : string :=
  "Object.assign(this, {" +:+ String nl (entries es) +:+ String nl "});"
  +:+ String nl "".

(** [all p s]: every character of [s] satisfies [p]. *)
Fixpoint all (p : ascii -> bool) (s : string) : bool :=
  match s with
  | EmptyString => true
  | String c t => p c && all p t
  end.

(** The character before the position reached after reading [s], when
    [prev] was the character before [s]. *)
Fixpoint last_char (prev : option ascii) (s : string) : option ascii :=
  match s with
  | EmptyString => prev
  | String c t => last_char (Some c) t
  end.

Definition is_quote (c : ascii) : bool := existsb (Ascii.eqb c) [dq; sq].

Definition quote_free (s : string) : bool := all (fun c => negb (is_quote c)) s.

Definition word_only (s : string) : bool := all Re.is_word s.

Definition nonword_only (s : string) : bool :=
  all (fun c => negb (Re.is_word c)) s.

(** The loop of [run] on [Plus r1], named. *)
Definition plus_loop {R : Type} (r1 : Re.regex)
    (k : option ascii -> string -> Re.captures -> option R) :
    nat -> bool -> option ascii -> string -> Re.captures -> option R :=
  fix loop (fuel : nat) (first : bool) (prev : option ascii) (s : string)
      (caps : Re.captures) {struct fuel} : option R :=
    match fuel with
    | O => None
    | S fuel' =>
        Re.run r1 prev s caps (fun prev' s' caps' =>
          let again :=
            if first || (String.length s' <? String.length s)
            then loop fuel' false prev' s' caps' else None in
          match again with
          | Some x => Some x
          | None => k prev' s' caps'
          end)
    end.

(** Patterns without [\b]: their matches do not look at the character before
    the current position. *)
Fixpoint boundary_free (r : Re.regex) : bool :=
  match r with
  | Re.Boundary => false
  | Re.Cat r1 r2 | Re.Alt r1 r2 => boundary_free r1 && boundary_free r2
  | Re.Plus r1 | Re.Group _ r1 => boundary_free r1
  | _ => true
  end.

(** An include call as Pass 1 reads it: opening quote [q1], argument [x],
    closing quote [q2]. *)
Definition include_call (q1 : ascii) (x : string) (q2 : ascii) : string :=
  "include(" +:+ String q1 (x +:+ String q2 ")").

(** What the Reference Updater writes back for a file that held [content]. *)
Definition rewritten (content : string) : string :=
  UpdateUtils.pass3 (UpdateUtils.pass2 (UpdateUtils.pass1 content)).

(** The identifiers of Pass 2 and of Pass 3. *)
Definition VARIABLE_NAMES : list string :=
  ["CoreUtils"; "EmailUtils"; "AnalysisUtils"; "DataUtils"].

Definition SECTION_NAMES : list string :=
  ["FundamentalMetrics"; "MacroeconomicFactors"; "MarketIndicators";
   "MarketSentiment"; "GeopoliticalRisks"].

Definition is_variable_name (s : string) : bool :=
  existsb (String.eqb s) VARIABLE_NAMES.

(** The body of the loop of the two list-iterating scripts, over the
    per-file update of either. *)
Definition loop_body (update : string -> M unit) (filename : string) : M unit :=
  e ← os_path_exists filename;
  if (e : bool)
  then update filename;; print ("Updated: " +:+ filename)
  else mret tt.

(** [name] is a file of [w]. *)
Definition on_disk (w : world) (name : string) : Prop :=
  is_Some (files w !! name).

(** ** Definitions used to state the further properties *)

(** A script run [n] times in a row; an exception ends the sequence. *)
Fixpoint run_times (n : nat) (script : M unit) : M unit :=
  match n with
  | O => mret tt
  | S n' => script;; run_times n' script
  end.

(** [n] line feeds. *)
Fixpoint line_feeds (n : nat) : string :=
  match n with
  | O => ""
  | S n' => String nl (line_feeds n')
  end.

(** The longest prefix of [s] whose characters satisfy [p], and what is left
    of [s] after it. *)
Fixpoint take_while (p : ascii -> bool) (s : string) : string :=
  match s with
  | EmptyString => EmptyString
  | String c t => if p c then String c (take_while p t) else EmptyString
  end.

Fixpoint drop_while (p : ascii -> bool) (s : string) : string :=
  match s with
  | EmptyString => EmptyString
  | String c t => if p c then drop_while p t else s
  end.

(** What Pass 2 and Pass 3 do to a run of word characters: the prefix for a
    name of the list, nothing otherwise. *)
Definition prefix_if (names : list string) (w : string) : string :=
  if existsb (String.eqb w) names then "Utils_" +:+ w else w.

(** [pass] works on each maximal run of word characters on its own: text
    without word characters is kept, and a run [w] between such text and a
    character that is not a word character (or the end) becomes [f w]. *)
Definition acts_on_runs (pass f : string -> string) : Prop :=
  (forall pre : string, nonword_only pre = true -> pass pre = pre) /\
  (forall pre w post : string,
     nonword_only pre = true ->
     word_only w = true -> w <> "" ->
     Re.is_word_at (Re.next_char post) = false ->
     pass (pre +:+ w +:+ post) = pre +:+ f w +:+ pass post).

(** [Utils_] put [n] times before [x]. *)
Fixpoint prefixed (n : nat) (x : string) : string :=
  match n with
  | O => x
  | S n' => "Utils_" +:+ prefixed n' x
  end.

(** [f] applied [n] times. *)
Fixpoint iterate (n : nat) (f : string -> string) (x : string) : string :=
  match n with
  | O => x
  | S n' => f (iterate n' f x)
  end.

(** The characters of a text, as a list. *)
Definition chars (s : string) : list ascii := String.list_ascii_of_string s.

(** ** Sample worlds *)

Definition combiner_world : world :=
  World (<["Utils.gs" := "NEW_BODY"]>
           (<["Utils_Main.gs" :=
                "HEADER" +:+ String nl "// Export all functions directly"
                +:+ String nl "OLD_BODY"]> ∅)) [].

Definition no_marker_world : world :=
  World (<["Utils.gs" := "function f() {}"]>
           (<["Utils_Main.gs" := "// imports only"]> ∅)) [].

Definition stale_facade_world : world :=
  World (<["Utils_Main.gs" :=
             "// imports" +:+ String nl "// Export all functions directly"
             +:+ String nl "stale();"]> ∅) [].

Definition facade_call_world : world :=
  World (<["Code.gs" := "callUtils_MainThing()"]> ∅) [].

Definition nested_token_world : world :=
  World (<["Code.gs" := "Utils_Utils_MainMain"]> ∅) [].

Definition core_utils_world : world :=
  World (<["Code.gs" := "CoreUtils"]> ∅) [].

Definition empty_world : world := World ∅ [].

Definition facade_world : world :=
  World (<["Code.gs" := "callUtils_MainThing()"]>
           (<["Utils_Main.gs" := "// facade"]> ∅)) [].

Definition plain_code_world : world :=
  World (<["Code.gs" := "DataUtils.formatDate(MarketSentiment.date)"]> ∅) [].

(** * Facts about the string methods *)

#[local] Arguments String.append : simpl nomatch.

Lemma append_nil_r (s : string) : s +:+ "" = s.
Proof. induction s as [|c s IH]; simpl; [done | by rewrite IH]. Qed.

Lemma append_assoc (a b c : string) : (a +:+ b) +:+ c = a +:+ (b +:+ c).
Proof. induction a as [|x a IH]; simpl; [done | by rewrite IH]. Qed.

Lemma append_length (a b : string) :
  String.length (a +:+ b) = String.length a + String.length b.
Proof. induction a as [|x a IH]; simpl; [done | by rewrite IH]. Qed.

Lemma startswith_app (p t : string) : Str.startswith (p +:+ t) p = true.
Proof.
  induction p as [|c p IH]; simpl; [done|].
  by rewrite Ascii.eqb_refl, IH.
Qed.

Lemma startswith_inv (s p : string) :
  Str.startswith s p = true -> s = p +:+ Str.drop (String.length p) s.
Proof.
  revert s; induction p as [|c p IH]; intros s H; simpl in *.
  - by destruct s.
  - destruct s as [|b s]; [done|].
    apply andb_true_iff in H as [Hc Hp].
    apply Ascii.eqb_eq in Hc as ->. simpl. f_equal. by apply IH.
Qed.

Lemma take_app_length (a b : string) : Str.take (String.length a) (a +:+ b) = a.
Proof. induction a as [|x a IH]; simpl; [by destruct b | by rewrite IH]. Qed.

Lemma drop_app_length (a b : string) : Str.drop (String.length a) (a +:+ b) = b.
Proof. induction a as [|x a IH]; simpl; [by destruct b | done]. Qed.

(** A prefix of [h ++ c ++ x] lies inside [h] or contains [c]. *)
Lemma startswith_across (h x sep : string) (c : ascii) :
  Str.startswith (h +:+ String c x) sep = true ->
  Str.startswith h sep = true \/ Str.has_char c sep = true.
Proof.
  revert sep; induction h as [|b h IH]; intros [|a sep] H; simpl in *; auto.
  - apply andb_true_iff in H as [Ha _]. right. by rewrite Ha.
  - apply andb_true_iff in H as [Ha Hs]. rewrite Ha. simpl.
    destruct (IH _ Hs) as [-> | ->]; [by left | right; by rewrite orb_true_r].
Qed.

Lemma contains_find (sub s : string) :
  Str.contains sub s = false <-> Str.find sub s = None.
Proof.
  induction s as [|c s IH]; simpl.
  - destruct (Str.startswith "" sub); simpl; split; congruence.
  - destruct (Str.startswith (String c s) sub); simpl; [split; congruence|].
    rewrite IH. destruct (Str.find sub s); simpl; split; congruence.
Qed.

Lemma split_go_nonempty (sep : string) (skip : nat) (s : string) :
  Str.split_go sep skip s <> [].
Proof.
  revert skip; induction s as [|c s IH]; intros skip; simpl; [done|].
  destruct skip; [|apply IH].
  destruct (Str.startswith (String c s) sep); [done|].
  by destruct (Str.split_go sep 0 s).
Qed.

(** The first segment of a split is the text before the first occurrence. *)
Lemma split_go_head (sep s : string) :
  sep <> "" ->
  Str.split_go sep 0 s !! 0 =
    Some (match Str.find sep s with Some i => Str.take i s | None => s end).
Proof.
  intros Hsep. induction s as [|c s IH]; simpl.
  - by destruct sep.
  - destruct (Str.startswith (String c s) sep); [done|].
    destruct (Str.split_go sep 0 s) as [|seg segs]; [done|].
    simpl in *. injection IH as ->.
    by destruct (Str.find sep s).
Qed.

Lemma find_app (sep post : string) : Str.find sep (sep +:+ post) = Some 0.
Proof.
  destruct sep as [|a sep]; [by destruct post|].
  change (Str.find (String a sep) (String a sep +:+ post))
    with (if Str.startswith (String a sep +:+ post) (String a sep)
          then Some 0 else S <$> Str.find (String a sep) (sep +:+ post)).
  by rewrite startswith_app.
Qed.

(** In [h ++ c ++ sep ++ post], where [sep] occurs nowhere in [h] and the
    character [c] nowhere in [sep], the first occurrence of [sep] is the one
    after [c]. *)
Lemma find_after_char (sep h post : string) (c : ascii) :
  sep <> "" ->
  Str.has_char c sep = false ->
  Str.find sep h = None ->
  Str.find sep (h +:+ String c (sep +:+ post)) = Some (S (String.length h)).
Proof.
  intros Hsep Hc. induction h as [|b h IH]; intros Hh.
  - simpl. destruct (Str.startswith (String c (sep +:+ post)) sep) eqn:E.
    + apply (startswith_across "" _ sep c) in E as [E|E]; [|congruence].
      by destruct sep.
    + by rewrite find_app.
  - simpl in Hh. simpl.
    destruct (Str.startswith (String b h) sep) eqn:E1; [done|].
    destruct (Str.find sep h) eqn:E2; [done|].
    destruct (Str.startswith (String b (h +:+ String c (sep +:+ post))) sep) eqn:E.
    + apply (startswith_across (String b h) _ sep c) in E as [E|E]; congruence.
    + by rewrite IH.
Qed.

Lemma before_marker_absent (s : string) :
  Str.contains MARKER s = false -> before_marker s = s.
Proof. intros H%contains_find. unfold before_marker. by rewrite H. Qed.

Lemma startswith_take (n : nat) (s p : string) :
  Str.startswith (Str.take n s) p = true -> Str.startswith s p = true.
Proof.
  revert n s; induction p as [|a p IH]; intros n s H; [done|].
  destruct n as [|n], s as [|b s]; simpl in *; try done.
  apply andb_true_iff in H as [-> H]. simpl. by apply (IH n).
Qed.

(** Nothing before the first occurrence contains the separator. *)
Lemma find_take (sep s : string) (i : nat) :
  sep <> "" -> Str.find sep s = Some i -> Str.find sep (Str.take i s) = None.
Proof.
  intros Hsep. revert i; induction s as [|c s IH]; intros i E; simpl in E.
  - destruct sep; [done|]. by destruct i.
  - destruct (Str.startswith (String c s) sep) eqn:E1.
    + injection E as <-. by destruct sep.
    + destruct (Str.find sep s) as [j|] eqn:E2; [|done].
      injection E as <-. simpl.
      destruct (Str.startswith (String c (Str.take j s)) sep) eqn:E3.
      * apply (startswith_take (S j) (String c s)) in E3. congruence.
      * by rewrite (IH j).
Qed.

Lemma before_marker_free (s : string) :
  Str.find MARKER (before_marker s) = None.
Proof.
  unfold before_marker.
  destruct (Str.find MARKER s) as [i|] eqn:E; [|done].
  by apply find_take.
Qed.

Lemma before_marker_app (h post : string) :
  Str.find MARKER h = None ->
  before_marker (h +:+ String nl (MARKER +:+ post)) = h +:+ String nl "".
Proof.
  intros Hh. unfold before_marker.
  rewrite find_after_char by done.
  change (String nl (MARKER +:+ post)) with (String nl "" +:+ (MARKER +:+ post)).
  rewrite <- append_assoc.
  replace (S (String.length h)) with (String.length (h +:+ String nl "")).
  - apply take_app_length.
  - rewrite append_length. simpl. lia.
Qed.

Lemma endswith_app (a b : string) : Str.endswith (a +:+ b) b = true.
Proof.
  induction a as [|c a IH]; simpl.
  - destruct b; simpl; [done|]. by rewrite Ascii.eqb_refl, String.eqb_refl.
  - by rewrite IH, orb_true_r.
Qed.

Lemma from_marker_app (h post : string) :
  Str.find MARKER h = None ->
  from_marker (h +:+ String nl (MARKER +:+ post)) = MARKER +:+ post.
Proof.
  intros Hh. unfold from_marker.
  rewrite find_after_char by done.
  change (String nl (MARKER +:+ post)) with (String nl "" +:+ (MARKER +:+ post)).
  rewrite <- append_assoc.
  replace (S (String.length h)) with (String.length (h +:+ String nl "")).
  - apply drop_app_length.
  - rewrite append_length. simpl. lia.
Qed.

Lemma replace_go_absent (old new s : string) :
  Str.contains old s = false -> Str.replace_go old new 0 s = s.
Proof.
  induction s as [|c s IH]; simpl; [done|].
  intros [H1 H2]%orb_false_iff. rewrite H1. by rewrite IH.
Qed.

Lemma replace_absent (old new s : string) :
  old <> "" -> Str.contains old s = false -> Str.replace old new s = s.
Proof.
  intros Hold H. destruct old; [done|]. by apply replace_go_absent.
Qed.

(** * What each script does to the world *)

Lemma split_marker_head (content : string) (w : world) :
  exists parts,
    str_split content MARKER w = (inr parts, w) /\
    item parts 0 w = (inr (before_marker content), w).
Proof.
  exists (Str.split_go MARKER 0 content). split; [done|].
  unfold item. by rewrite (split_go_head MARKER content).
Qed.

Lemma combine_files_spec (w : world) (a b : string) :
  files w !! "Utils.gs" = Some a ->
  files w !! "Utils_Main.gs" = Some b ->
  CombineUtils.combine_files w =
    (inr tt,
     World (delete "Utils.gs"
              (<["Utils_Main.gs" := before_marker b +:+ MARKER_LINE +:+ a]> (files w)))
           (stdout w)).
Proof.
  intros Ha Hb. unfold CombineUtils.combine_files.
  unfold mbind, M_bind, read_file at 1. rewrite Ha.
  unfold read_file. rewrite Hb.
  change (str_split b _) with (str_split b MARKER).
  destruct (split_marker_head b w) as (parts & -> & ->).
  unfold write_file, os_remove. simpl.
  by rewrite lookup_insert_ne, Ha.
Qed.

Lemma restore_facade_spec (w : world) (content : string) :
  files w !! "Utils_Main.gs" = Some content ->
  RestoreFacade.restore_facade w =
    (inr tt,
     World (<["Utils_Main.gs" :=
                before_marker content +:+ RestoreFacade.FACADE_BLOCK]> (files w))
           (stdout w)).
Proof.
  intros Hc. unfold RestoreFacade.restore_facade.
  unfold mbind, M_bind, read_file. rewrite Hc.
  change (str_split content _) with (str_split content MARKER).
  by destruct (split_marker_head content w) as (parts & -> & ->).
Qed.

Lemma facade_block_shape :
  RestoreFacade.FACADE_BLOCK = MARKER_LINE +:+ object_assign EXPORTS.
Proof. reflexivity. Qed.

(** The loop shared by the two list-iterating scripts, over any per-file
    update that rewrites an existing file's content by [f]. *)
Section UpdateLoop.
Variable update : string -> M unit.
Variable f : string -> string.
Hypothesis update_spec : forall (name : string) (w : world) (c : string),
  files w !! name = Some c ->
  update name w = (inr tt, World (<[name := f c]> (files w)) (stdout w)).

Lemma loop_body_present (w : world) (name c : string) :
  files w !! name = Some c ->
  loop_body update name w =
    (inr tt, World (<[name := f c]> (files w))
                   (stdout w ++ ["Updated: " +:+ name])).
Proof.
  intros Hc. unfold loop_body, mbind, M_bind, os_path_exists.
  rewrite bool_decide_eq_true_2 by (by rewrite Hc).
  by rewrite (update_spec name w c Hc).
Qed.

Lemma loop_body_absent (w : world) (name : string) :
  files w !! name = None -> loop_body update name w = (inr tt, w).
Proof.
  intros Hc. unfold loop_body, mbind, M_bind, os_path_exists.
  rewrite bool_decide_eq_false_2; [done|].
  rewrite Hc. by intros [? ?].
Qed.

Lemma filter_on_disk_insert (w : world) (name c v : string) (out : list string)
    (l : list string) :
  files w !! name = Some c ->
  filter (on_disk (World (<[name := v]> (files w)) out)) l =
  filter (on_disk w) l.
Proof.
  intros Hc. induction l as [|y l IH]; [done|].
  rewrite !filter_cons, IH.
  assert (on_disk (World (<[name := v]> (files w)) out) y <-> on_disk w y) as Hiff.
  { unfold on_disk. simpl. destruct (decide (name = y)) as [->|Hne].
    - rewrite lookup_insert_eq, Hc. split; eauto.
    - by rewrite lookup_insert_ne. }
  repeat case_decide; tauto.
Qed.

Lemma for_each_loop_body (l : list string) :
  NoDup l ->
  forall w : world, exists w' : world,
    for_each l (loop_body update) w = (inr tt, w') /\
    stdout w' = stdout w ++ (String.append "Updated: " <$> filter (on_disk w) l) /\
    forall name : string,
      files w' !! name =
        if decide (name ∈ l) then f <$> files w !! name else files w !! name.
Proof.
  induction 1 as [|x l Hx Hl IH]; intros w.
  - exists w. split; [done|]. split; [by rewrite filter_nil, app_nil_r|].
    intros name. rewrite decide_False; [done | apply not_elem_of_nil].
  - simpl. unfold mbind at 1, M_bind at 1.
    destruct (files w !! x) as [c|] eqn:Hc.
    + rewrite (loop_body_present w x c Hc).
      destruct (IH (World (<[x := f c]> (files w))
                         (stdout w ++ ["Updated: " +:+ x])))
        as (w' & -> & Hout & Hfiles).
      exists w'. split; [done|]. split.
      * rewrite Hout. simpl stdout.
        rewrite (filter_on_disk_insert w x c (f c) _ l Hc).
        rewrite filter_cons_True by (unfold on_disk; by rewrite Hc).
        by rewrite fmap_cons, <- app_assoc.
      * intros name. rewrite Hfiles. simpl files.
        destruct (decide (name = x)) as [->|Hne].
        -- rewrite decide_False by done.
           rewrite decide_True by (apply elem_of_cons; by left).
           by rewrite lookup_insert_eq, Hc.
        -- rewrite lookup_insert_ne by done.
           destruct (decide (name ∈ l)).
           ++ rewrite decide_True; [done | apply elem_of_cons; by right].
           ++ rewrite decide_False; [done | by intros [?|?]%elem_of_cons].
    + rewrite (loop_body_absent w x Hc).
      destruct (IH w) as (w' & -> & Hout & Hfiles).
      exists w'. split; [done|]. split.
      * rewrite Hout.
        rewrite filter_cons_False; [done|].
        unfold on_disk. rewrite Hc. by intros [? ?].
      * intros name. rewrite Hfiles.
        destruct (decide (name = x)) as [->|Hne].
        -- rewrite decide_False by done.
           rewrite decide_True by (apply elem_of_cons; by left).
           by rewrite Hc.
        -- destruct (decide (name ∈ l)).
           ++ rewrite decide_True; [done | apply elem_of_cons; by right].
           ++ rewrite decide_False; [done | by intros [?|?]%elem_of_cons].
Qed.
End UpdateLoop.

Lemma remove_update_file_content_spec (name : string) (w : world) (c : string) :
  files w !! name = Some c ->
  RemoveFacade.update_file_content name w =
    (inr tt, World (<[name := Str.replace "Utils_Main" "" c]> (files w)) (stdout w)).
Proof.
  intros Hc. unfold RemoveFacade.update_file_content, mbind, M_bind, read_file.
  by rewrite Hc.
Qed.

Lemma update_update_file_content_spec (name : string) (w : world) (c : string) :
  files w !! name = Some c ->
  UpdateUtils.update_file_content name w =
    (inr tt,
     World (<[name := rewritten c]> (files w)) (stdout w)).
Proof.
  intros Hc. unfold UpdateUtils.update_file_content, mbind, M_bind, read_file.
  by rewrite Hc.
Qed.

Lemma files_to_update_NoDup : NoDup RemoveFacade.files_to_update.
Proof. apply (bool_decide_unpack _). vm_compute. reflexivity. Qed.

(** * Facts about the matcher *)

Lemma run_Plus {R : Type} (r1 : Re.regex) (prev : option ascii) (s : string)
    (caps : Re.captures) (k : option ascii -> string -> Re.captures -> option R) :
  Re.run (Re.Plus r1) prev s caps k =
  plus_loop r1 k (S (S (String.length s))) true prev s caps.
Proof. reflexivity. Qed.

Lemma run_lit {R : Type} (t : string) :
  forall (prev : option ascii) (s : string) (caps : Re.captures)
         (k : option ascii -> string -> Re.captures -> option R),
    Re.run (Re.lit t) prev (t +:+ s) caps k = k (last_char prev t) s caps.
Proof.
  induction t as [|c t IH]; intros prev s caps k; [done|].
  destruct t as [|c' t].
  - simpl. by rewrite Ascii.eqb_refl.
  - change (Re.lit (String c (String c' t)))
      with (Re.Cat (Re.Chr c) (Re.lit (String c' t))).
    simpl Re.run. simpl String.append. rewrite Ascii.eqb_refl.
    apply (IH (Some c)).
Qed.

Lemma run_lit_inv {R : Type} (t : string) :
  forall (prev : option ascii) (s : string) (caps : Re.captures)
         (k : option ascii -> string -> Re.captures -> option R) (x : R),
    Re.run (Re.lit t) prev s caps k = Some x ->
    exists s', s = t +:+ s' /\ k (last_char prev t) s' caps = Some x.
Proof.
  induction t as [|c t IH]; intros prev s caps k x H.
  - exists s. by split.
  - assert (Hc : exists s1, s = String c s1 /\
                 Re.run (Re.lit t) (Some c) s1 caps k = Some x).
    { destruct t as [|c' t].
      - simpl in H. destruct s as [|a s]; [done|].
        destruct (Ascii.eqb_spec a c) as [->|]; [|done]. by exists s.
      - change (Re.lit (String c (String c' t)))
          with (Re.Cat (Re.Chr c) (Re.lit (String c' t))) in H.
        simpl Re.run in H. destruct s as [|a s]; [done|].
        destruct (Ascii.eqb_spec a c) as [->|]; [|done]. by exists s. }
    destruct Hc as (s1 & -> & H1).
    destruct (IH _ _ _ _ _ H1) as (s' & -> & Hk).
    exists s'. by split.
Qed.

(** A greedy run over a character class: when the characters of [x] are in
    the class, the text after [x] does not start with one, and the rest of the
    pattern succeeds after all of [x], that is the match taken. *)
Lemma plus_loop_class {R : Type} (negate : bool) (cs : list ascii)
    (k : option ascii -> string -> Re.captures -> option R)
    (rest : string) (caps : Re.captures) (res : R) :
  Re.run (Re.In negate cs) None rest caps (fun _ _ _ => Some tt) = None ->
  forall (x : string) (first : bool) (prev : option ascii) (fuel : nat),
    x <> "" ->
    all (fun c => xorb negate (existsb (Ascii.eqb c) cs)) x = true ->
    String.length x <= fuel ->
    k (last_char prev x) rest caps = Some res ->
    plus_loop (Re.In negate cs) k fuel first prev (x +:+ rest) caps = Some res.
Proof.
  intros Hrest.
  induction x as [|c x IH]; intros first prev fuel Hne Hall Hfuel Hk; [done|].
  simpl in Hall. apply andb_true_iff in Hall as [Hc Hall].
  destruct fuel as [|fuel]; [simpl in Hfuel; lia|].
  simpl plus_loop. simpl String.append. rewrite Hc.
  assert (Hlt : (String.length (x +:+ rest) <? S (String.length (x +:+ rest))) = true)
    by (apply Nat.ltb_lt; lia).
  simpl String.length. rewrite Hlt, orb_true_r.
  destruct x as [|c' x].
  - simpl String.append. simpl in Hk.
    assert (plus_loop (Re.In negate cs) k fuel false (Some c) rest caps = None) as ->;
      [|done].
    destruct fuel; [done|]. simpl. simpl in Hrest.
    destruct rest as [|a rest]; [done|].
    by destruct (xorb negate (existsb (Ascii.eqb a) cs)).
  - rewrite (IH false (Some c) fuel); [done|done|done| |done].
    simpl in Hfuel |- *. lia.
Qed.

Lemma take_length_diff (a b : string) :
  Str.take (String.length (a +:+ b) - String.length b) (a +:+ b) = a.
Proof.
  replace (String.length (a +:+ b) - String.length b) with (String.length a)
    by (rewrite append_length; lia).
  apply take_app_length.
Qed.

Lemma run_Cat {R : Type} (r1 r2 : Re.regex) (prev : option ascii) (s : string)
    (caps : Re.captures) (k : option ascii -> string -> Re.captures -> option R) :
  Re.run (Re.Cat r1 r2) prev s caps k =
  Re.run r1 prev s caps (fun prev' s' caps' => Re.run r2 prev' s' caps' k).
Proof. reflexivity. Qed.

Lemma run_Group {R : Type} (n : nat) (r1 : Re.regex) (prev : option ascii)
    (s : string) (caps : Re.captures)
    (k : option ascii -> string -> Re.captures -> option R) :
  Re.run (Re.Group n r1) prev s caps k =
  Re.run r1 prev s caps (fun prev' s' caps' =>
    k prev' s' ((n, Str.take (String.length s - String.length s') s) :: caps')).
Proof. reflexivity. Qed.

Lemma run_Chr {R : Type} (c : ascii) (prev : option ascii) (t : string)
    (caps : Re.captures) (k : option ascii -> string -> Re.captures -> option R) :
  Re.run (Re.Chr c) prev (String c t) caps k = k (Some c) t caps.
Proof. simpl. by rewrite Ascii.eqb_refl. Qed.

Lemma run_quote {R : Type} (q : ascii) (prev : option ascii) (t : string)
    (caps : Re.captures) (k : option ascii -> string -> Re.captures -> option R) :
  is_quote q = true ->
  Re.run UpdateUtils.quote prev (String q t) caps k = k (Some q) t caps.
Proof.
  intros Hq. unfold UpdateUtils.quote, is_quote in *. simpl in *. by rewrite Hq.
Qed.

Lemma include_call_app (q1 q2 : ascii) (x post : string) :
  include_call q1 x q2 +:+ post =
  "include" +:+ String "(" (String q1 (x +:+ String q2 (String ")" post))).
Proof. unfold include_call. simpl. by rewrite append_assoc. Qed.

(** The include pattern matches an include call at the current position,
    whichever of the two quotes opens and closes it. *)
Lemma match_include_call (b : bool) (prev : option ascii) (q1 q2 : ascii)
    (x post : string) :
  is_quote q1 = true -> is_quote q2 = true ->
  x <> "" -> quote_free x = true ->
  Re.match_here UpdateUtils.INCLUDE b prev (include_call q1 x q2 +:+ post) =
    Some (Re.MatchObject (include_call q1 x q2) [(1, x)] post).
Proof.
  intros Hq1 Hq2 Hx Hfree. unfold Re.match_here.
  set (k := fun (_ : option ascii) s' caps => _).
  assert (Hk : k (Some ")"%char) post [(1, x)] =
               Some (Re.MatchObject (include_call q1 x q2) [(1, x)] post)).
  { unfold k. rewrite take_length_diff.
    replace (String.length post =? String.length (include_call q1 x q2 +:+ post))
      with false; [by rewrite andb_false_r|].
    symmetry. apply Nat.eqb_neq. rewrite append_length. unfold include_call.
    simpl. lia. }
  clearbody k. rewrite include_call_app. unfold UpdateUtils.INCLUDE.
  rewrite run_Cat, run_lit. rewrite run_Cat, run_Chr. rewrite run_Cat, run_quote by done.
  rewrite run_Cat, run_Group, run_Plus.
  apply plus_loop_class; try done.
  - unfold is_quote in Hq2. simpl in *. by rewrite Hq2.
  - rewrite append_length. lia.
  - rewrite take_length_diff. rewrite run_Cat, run_quote by done.
    by rewrite run_Chr.
Qed.

Lemma plus_loop_prev_irrel {R : Type} (r1 : Re.regex)
    (k k' : option ascii -> string -> Re.captures -> option R) :
  (forall (prev prev' : option ascii) (s : string) (caps : Re.captures)
          (h h' : option ascii -> string -> Re.captures -> option R),
     (forall p p' s' c', h p s' c' = h' p' s' c') ->
     Re.run r1 prev s caps h = Re.run r1 prev' s caps h') ->
  (forall p p' s' c', k p s' c' = k' p' s' c') ->
  forall (fuel : nat) (first : bool) (prev prev' : option ascii) (s : string)
         (caps : Re.captures),
    plus_loop r1 k fuel first prev s caps = plus_loop r1 k' fuel first prev' s caps.
Proof.
  intros Hr Hk. induction fuel as [|fuel IH]; intros first prev prev' s caps; [done|].
  simpl. apply Hr. intros p p' s' c'.
  destruct (first || (String.length s' <? String.length s)); [|apply Hk].
  rewrite (IH false p p'). by rewrite (Hk p p').
Qed.

(** A pattern without [\b] matches the same way whatever character comes
    before the current position. *)
Lemma run_prev_irrel (r : Re.regex) :
  boundary_free r = true ->
  forall (R : Type) (prev prev' : option ascii) (s : string) (caps : Re.captures)
         (k k' : option ascii -> string -> Re.captures -> option R),
    (forall p p' s' c', k p s' c' = k' p' s' c') ->
    Re.run r prev s caps k = Re.run r prev' s caps k'.
Proof.
  induction r as [|c|negate cs| |r1 IH1 r2 IH2|r1 IH1 r2 IH2|r1 IH1|n r1 IH1];
    intros Hbf R prev prev' s caps k k' Hk; simpl in Hbf; try done.
  - apply Hk.
  - simpl. destruct s as [|a s]; [done|]. destruct (Ascii.eqb a c); [apply Hk|done].
  - simpl. destruct s as [|a s]; [done|].
    destruct (xorb negate (existsb (Ascii.eqb a) cs)); [apply Hk|done].
  - apply andb_true_iff in Hbf as [H1 H2]. rewrite !run_Cat.
    apply IH1; [done|]. intros p p' s' c'. by apply IH2.
  - apply andb_true_iff in Hbf as [H1 H2]. simpl.
    rewrite (IH1 H1 R prev prev' s caps k k' Hk).
    by rewrite (IH2 H2 R prev prev' s caps k k' Hk).
  - rewrite !run_Plus. apply plus_loop_prev_irrel; [|done].
    intros p p' s0 c0 h h' Hh. by apply IH1.
  - rewrite !run_Group. apply IH1; [done|]. intros p p' s' c'. apply Hk.
Qed.

Lemma match_here_prev_irrel (r : Re.regex) (b : bool) (prev prev' : option ascii)
    (s : string) :
  boundary_free r = true ->
  Re.match_here r b prev s = Re.match_here r b prev' s.
Proof. intros Hbf. unfold Re.match_here. by apply run_prev_irrel. Qed.

Lemma sub_go_prev_irrel (r : Re.regex) (repl : Re.match_object -> string)
    (skip : nat) (prev prev' : option ascii) (s : string) :
  boundary_free r = true ->
  Re.sub_go r repl skip prev s = Re.sub_go r repl skip prev' s.
Proof.
  intros Hbf. destruct s as [|c s], skip as [|skip]; simpl; try done;
    by rewrite !(match_here_prev_irrel r _ prev prev').
Qed.

(** Passing over the rest of a match. *)
Lemma sub_go_skip (r : Re.regex) (repl : Re.match_object -> string) (x s : string) :
  forall prev : option ascii,
    Re.sub_go r repl (String.length x) prev (x +:+ s) =
    Re.sub_go r repl 0 (last_char prev x) s.
Proof. induction x as [|c x IH]; intros prev; [done|]. simpl. apply IH. Qed.

Lemma all_app (p : ascii -> bool) (a b : string) :
  all p (a +:+ b) = all p a && all p b.
Proof. induction a as [|c a IH]; simpl; [done|]. by rewrite IH, andb_assoc. Qed.

Lemma all_take_app (p : ascii -> bool) (n : nat) (a b : string) :
  all p a = true -> n <= String.length a -> all p (Str.take n (a +:+ b)) = true.
Proof.
  revert n; induction a as [|c a IH]; intros n Ha Hn; simpl in *.
  - by replace n with 0 by lia.
  - destruct n as [|n]; [done|]. apply andb_true_iff in Ha as [Hc Ha].
    simpl. rewrite Hc. apply IH; [done | lia].
Qed.

Lemma run_Chr_inv {R : Type} (c : ascii) (prev : option ascii) (s : string)
    (caps : Re.captures) (k : option ascii -> string -> Re.captures -> option R)
    (x : R) :
  Re.run (Re.Chr c) prev s caps k = Some x ->
  exists t, s = String c t /\ k (Some c) t caps = Some x.
Proof.
  simpl. destruct s as [|a s]; [done|].
  destruct (Ascii.eqb_spec a c) as [->|]; [|done]. by exists s.
Qed.

Lemma run_In_inv {R : Type} (negate : bool) (cs : list ascii)
    (prev : option ascii) (s : string) (caps : Re.captures)
    (k : option ascii -> string -> Re.captures -> option R) (x : R) :
  Re.run (Re.In negate cs) prev s caps k = Some x ->
  exists a t, s = String a t /\ xorb negate (existsb (Ascii.eqb a) cs) = true /\
              k (Some a) t caps = Some x.
Proof.
  simpl. destruct s as [|a s]; [done|].
  destruct (xorb negate (existsb (Ascii.eqb a) cs)) eqn:E; [|done]. by exists a, s.
Qed.

(** A match of the include pattern starts with [include(] and a quote. *)
Lemma match_include_inv (b : bool) (prev : option ascii) (s : string)
    (m : Re.match_object) :
  Re.match_here UpdateUtils.INCLUDE b prev s = Some m ->
  exists (q : ascii) (rest : string),
    s = "include(" +:+ String q rest /\ is_quote q = true.
Proof.
  unfold Re.match_here, UpdateUtils.INCLUDE. rewrite run_Cat.
  intros (s1 & -> & H)%run_lit_inv.
  rewrite run_Cat in H. apply run_Chr_inv in H as (s2 & -> & H).
  rewrite run_Cat in H. apply run_In_inv in H as (q & rest & -> & Hq & _).
  by exists q, rest.
Qed.

Lemma no_include_before (b : bool) (prev : option ascii) (pre tail : string) :
  pre <> "" -> quote_free pre = true ->
  Re.match_here UpdateUtils.INCLUDE b prev (pre +:+ "include(" +:+ tail) = None.
Proof.
  intros Hne Hfree.
  destruct (Re.match_here _ _ _ _) as [m|] eqn:E; [|done].
  apply match_include_inv in E as (q & rest & E & Hq).
  assert (H9 : quote_free (Str.take 9 ((pre +:+ "include(") +:+ tail)) = true).
  { apply all_take_app.
    - unfold quote_free. rewrite all_app. fold (quote_free pre). by rewrite Hfree.
    - rewrite append_length. destruct pre; [done|]. simpl. lia. }
  rewrite append_assoc, E in H9.
  change (Str.take 9 ("include(" +:+ String q rest))
    with ("include(" +:+ String q "") in H9.
  unfold quote_free in H9. rewrite all_app in H9. cbn [all] in H9.
  rewrite Hq in H9. by apply andb_true_iff in H9 as [_ H9].
Qed.

Lemma sub_go_no_match (r : Re.regex) (repl : Re.match_object -> string)
    (prev : option ascii) (c : ascii) (t : string) :
  Re.match_here r false prev (String c t) = None ->
  Re.sub_go r repl 0 prev (String c t) =
  String c (Re.sub_go r repl 0 (Some c) t).
Proof. intros H. cbn [Re.sub_go]. by rewrite H. Qed.

Lemma sub_go_match (r : Re.regex) (repl : Re.match_object -> string)
    (prev : option ascii) (c : ascii) (t : string) (m : Re.match_object) :
  Re.match_here r false prev (String c t) = Some m ->
  Re.matched m <> "" ->
  Re.sub_go r repl 0 prev (String c t) =
  repl m +:+ Re.sub_go r repl (String.length (Re.matched m) - 1) (Some c) t.
Proof.
  intros H Hm. cbn [Re.sub_go]. rewrite H.
  destruct (Re.matched m) as [|a x]; [done|].
  replace (String.length (String a x) - 1) with (String.length x); [done|].
  simpl. lia.
Qed.

Lemma sub_include_before (repl : Re.match_object -> string) (pre tail : string) :
  quote_free pre = true ->
  forall prev : option ascii,
    Re.sub_go UpdateUtils.INCLUDE repl 0 prev (pre +:+ "include(" +:+ tail) =
    pre +:+ Re.sub_go UpdateUtils.INCLUDE repl 0 None ("include(" +:+ tail).
Proof.
  induction pre as [|c pre IH]; intros Hfree prev.
  - by apply sub_go_prev_irrel.
  - pose proof (no_include_before false prev (String c pre) tail
                  ltac:(done) Hfree) as Hno.
    simpl in Hfree. apply andb_true_iff in Hfree as [_ Hfree].
    change (String c pre +:+ "include(" +:+ tail)
      with (String c (pre +:+ "include(" +:+ tail)) in *.
    rewrite (sub_go_no_match _ _ _ _ _ Hno). by rewrite IH.
Qed.

Lemma plus_loop_S {R : Type} (r1 : Re.regex)
    (k : option ascii -> string -> Re.captures -> option R)
    (fuel : nat) (first : bool) (prev : option ascii) (s : string)
    (caps : Re.captures) :
  plus_loop r1 k (S fuel) first prev s caps =
  Re.run r1 prev s caps (fun prev' s' caps' =>
    match (if first || (String.length s' <? String.length s)
           then plus_loop r1 k fuel false prev' s' caps' else None) with
    | Some x => Some x
    | None => k prev' s' caps'
    end).
Proof. reflexivity. Qed.

(** The converse for a greedy run over a character class: a match consumed
    a non-empty run of characters of the class, and the rest of the pattern
    succeeded after it. *)
Lemma plus_loop_class_inv {R : Type} (negate : bool) (cs : list ascii)
    (k : option ascii -> string -> Re.captures -> option R) (res : R) :
  forall (fuel : nat) (first : bool) (prev : option ascii) (s : string)
         (caps : Re.captures),
    plus_loop (Re.In negate cs) k fuel first prev s caps = Some res ->
    exists x rest : string,
      s = x +:+ rest /\ x <> "" /\
      all (fun c => xorb negate (existsb (Ascii.eqb c) cs)) x = true /\
      k (last_char prev x) rest caps = Some res.
Proof.
  induction fuel as [|fuel IH]; intros first prev s caps H; [done|].
  rewrite plus_loop_S in H.
  apply run_In_inv in H as (a & t & -> & Ha & H).
  destruct (if first || (String.length t <? String.length (String a t))
            then plus_loop (Re.In negate cs) k fuel false (Some a) t caps
            else None) as [res'|] eqn:E.
  - injection H as ->.
    destruct (first || (String.length t <? String.length (String a t))); [|done].
    apply IH in E as (x & rest & -> & Hx & Hall & Hk).
    exists (String a x), rest. cbn [all]. by rewrite Ha, Hall.
  - exists (String a ""), t. cbn [all]. by rewrite Ha.
Qed.

(** What the include pattern matches is an include call: [include(], a
    quote, a non-empty argument without quotes, a quote, [)]; group 1 is the
    argument. *)
Lemma match_include_shape (b : bool) (prev : option ascii) (s : string)
    (m : Re.match_object) :
  Re.match_here UpdateUtils.INCLUDE b prev s = Some m ->
  exists (q1 q2 : ascii) (x : string),
    is_quote q1 = true /\ is_quote q2 = true /\
    x <> "" /\ quote_free x = true /\
    s = include_call q1 x q2 +:+ Re.after m /\
    Re.matched m = include_call q1 x q2 /\
    Re.group m 1 = Some x.
Proof.
  unfold Re.match_here, UpdateUtils.INCLUDE. rewrite run_Cat.
  intros (s1 & -> & H)%run_lit_inv.
  rewrite run_Cat in H. apply run_Chr_inv in H as (s2 & -> & H).
  rewrite run_Cat in H. apply run_In_inv in H as (q1 & s3 & -> & Hq1 & H).
  rewrite run_Cat, run_Group, run_Plus in H.
  apply plus_loop_class_inv in H as (x & rest & -> & Hx & Hall & H).
  rewrite run_Cat in H. apply run_In_inv in H as (q2 & s4 & -> & Hq2 & H).
  apply run_Chr_inv in H as (post & -> & H).
  rewrite take_length_diff in H.
  assert (Hs : "include" +:+ String "(" (String q1 (x +:+ String q2 (String ")" post)))
               = include_call q1 x q2 +:+ post)
    by (symmetry; apply include_call_app).
  rewrite Hs, take_length_diff in H.
  destruct (b && _); [done|]. injection H as <-.
  exists q1, q2, x. by repeat split.
Qed.

(** Pass 1 on an include call that follows quote-free text: the text is
    kept, the call gets the prefixed argument in double quotes, and the scan
    goes on after the call. *)
Lemma pass1_include_call (pre post x : string) (q1 q2 : ascii) :
  quote_free pre = true ->
  is_quote q1 = true -> is_quote q2 = true ->
  x <> "" -> quote_free x = true ->
  UpdateUtils.pass1 (pre +:+ include_call q1 x q2 +:+ post) =
  pre +:+ include_call dq ("Utils_" +:+ x) dq +:+ UpdateUtils.pass1 post.
Proof.
  intros Hpre Hq1 Hq2 Hx Hfree. unfold UpdateUtils.pass1, Re.sub.
  set (repl := fun m : Re.match_object => _).
  pose proof (match_include_call false None q1 q2 x post Hq1 Hq2 Hx Hfree) as Hm.
  assert (Hcall : include_call q1 x q2 +:+ post =
                  "include(" +:+ String q1 (x +:+ String q2 ")") +:+ post).
  { unfold include_call. by rewrite append_assoc. }
  rewrite Hcall, (sub_include_before repl pre _ Hpre None), <- Hcall.
  f_equal.
  set (rest := "nclude(" +:+ String q1 (x +:+ String q2 ")")).
  change (include_call q1 x q2) with (String "i" rest) in Hm |- *.
  change (String "i" rest +:+ post) with (String "i" (rest +:+ post)) in Hm |- *.
  rewrite (sub_go_match _ repl _ _ _ _ Hm) by done.
  cbn [Re.matched]. replace (String.length (String "i" rest) - 1)
    with (String.length rest) by (simpl; lia).
  rewrite sub_go_skip.
  rewrite (sub_go_prev_irrel _ repl 0 _ None post) by done.
  unfold repl at 1. cbn [Re.group Re.lookup_group Re.groups Re.fmt Nat.eqb].
  unfold include_call. simpl. by rewrite !append_assoc.
Qed.

Lemma run_Alt_inv {R : Type} (r1 r2 : Re.regex) (prev : option ascii) (s : string)
    (caps : Re.captures) (k : option ascii -> string -> Re.captures -> option R)
    (x : R) :
  Re.run (Re.Alt r1 r2) prev s caps k = Some x ->
  Re.run r1 prev s caps k = Some x \/ Re.run r2 prev s caps k = Some x.
Proof.
  simpl. destruct (Re.run r1 prev s caps k); [intros [= <-]; by left | by right].
Qed.

Lemma run_Boundary_inv {R : Type} (prev : option ascii) (s : string)
    (caps : Re.captures) (k : option ascii -> string -> Re.captures -> option R)
    (x : R) :
  Re.run Re.Boundary prev s caps k = Some x ->
  xorb (Re.is_word_at prev) (Re.is_word_at (Re.next_char s)) = true /\
  k prev s caps = Some x.
Proof.
  simpl. by destruct (xorb (Re.is_word_at prev) (Re.is_word_at (Re.next_char s))).
Qed.

Lemma utils_boundary_inv {R : Type} (prev : option ascii) (s : string)
    (caps : Re.captures) (k : option ascii -> string -> Re.captures -> option R)
    (x : R) :
  Re.run (Re.Cat (Re.lit "Utils") Re.Boundary) prev s caps k = Some x ->
  exists rest, s = "Utils" +:+ rest /\ Re.is_word_at (Re.next_char rest) = false.
Proof.
  rewrite run_Cat. intros (rest & -> & H)%run_lit_inv.
  apply run_Boundary_inv in H as [H _].
  exists rest. split; [done|]. simpl in H.
  by destruct (Re.is_word_at (Re.next_char rest)).
Qed.

(** A match of the variable pattern is one of the four names, with no word
    character before it and none after it. *)
Lemma match_variable_inv (b : bool) (prev : option ascii) (s : string)
    (m : Re.match_object) :
  Re.match_here UpdateUtils.VARIABLES b prev s = Some m ->
  exists name rest : string,
    In name VARIABLE_NAMES /\ s = name +:+ rest /\
    Re.is_word_at prev = false /\ Re.is_word_at (Re.next_char rest) = false.
Proof.
  unfold Re.match_here, UpdateUtils.VARIABLES.
  rewrite run_Group, run_Cat. intros [Hb H]%run_Boundary_inv.
  rewrite run_Cat in H.
  assert (Hstart : forall name rest, s = name +:+ rest ->
            Re.is_word_at (Re.next_char (name +:+ rest)) = true ->
            Re.is_word_at prev = false).
  { intros name rest -> Hw. rewrite Hw in Hb. by destruct (Re.is_word_at prev). }
  apply run_Alt_inv in H as [H|H]; [|apply run_Alt_inv in H as [H|H];
    [|apply run_Alt_inv in H as [H|H]]];
    apply run_lit_inv in H as (s1 & Hs & H);
    apply utils_boundary_inv in H as (rest & -> & Hrest).
  - exists "CoreUtils", rest. repeat split; [simpl; tauto|done| |done].
    by apply (Hstart "CoreUtils" rest).
  - exists "EmailUtils", rest. repeat split; [simpl; tauto|done| |done].
    by apply (Hstart "EmailUtils" rest).
  - exists "AnalysisUtils", rest. repeat split; [simpl; tauto|done| |done].
    by apply (Hstart "AnalysisUtils" rest).
  - exists "DataUtils", rest. repeat split; [simpl; tauto|done| |done].
    by apply (Hstart "DataUtils" rest).
Qed.

Lemma word_only_next (s : string) :
  word_only s = true -> Re.is_word_at (Re.next_char s) = false -> s = "".
Proof.
  destruct s as [|c s]; [done|]. unfold word_only. cbn [all Re.next_char Re.is_word_at].
  intros [Hc _]%andb_true_iff. congruence.
Qed.

(** After a word character, Pass 2 finds nothing in a run of word
    characters. *)
Lemma sub_variables_after_word (repl : Re.match_object -> string) (t : string) :
  forall c : ascii,
    Re.is_word c = true -> word_only t = true ->
    Re.sub_go UpdateUtils.VARIABLES repl 0 (Some c) t = t.
Proof.
  induction t as [|a t IH]; intros c Hc Ht.
  - cbn [Re.sub_go].
    destruct (Re.match_here _ _ _ _) as [m|] eqn:E; [|done].
    apply match_variable_inv in E as (name & rest & _ & _ & Hprev & _).
    simpl in Hprev. congruence.
  - unfold word_only in Ht. cbn [all] in Ht.
    apply andb_true_iff in Ht as [Ha Ht].
    rewrite sub_go_no_match.
    + by rewrite IH.
    + destruct (Re.match_here _ _ _ _) as [m|] eqn:E; [|done].
      apply match_variable_inv in E as (name & rest & _ & _ & Hprev & _).
      simpl in Hprev. congruence.
Qed.

Lemma is_variable_name_In (s : string) :
  is_variable_name s = true <-> In s VARIABLE_NAMES.
Proof.
  unfold is_variable_name, VARIABLE_NAMES. simpl.
  rewrite !orb_true_iff, !String.eqb_eq. intuition congruence.
Qed.

(** Pass 2 on a text made of word characters only: one of the four names is
    prefixed, any other text is left as it is. *)
Lemma pass2_word_only (w : string) :
  word_only w = true ->
  UpdateUtils.pass2 w = if is_variable_name w then "Utils_" +:+ w else w.
Proof.
  intros Hw. destruct (is_variable_name w) eqn:N.
  - apply is_variable_name_In in N. simpl in N.
    destruct N as [<-|[<-|[<-|[<-|[]]]]]; by vm_compute.
  - destruct w as [|c t]; [done|].
    unfold UpdateUtils.pass2, Re.sub.
    unfold word_only in Hw. cbn [all] in Hw.
    apply andb_true_iff in Hw as [Hc Ht].
    rewrite sub_go_no_match; [by rewrite sub_variables_after_word|].
    destruct (Re.match_here _ _ _ _) as [m|] eqn:E; [|done].
    apply match_variable_inv in E as (name & rest & Hin & Hs & _ & Hrest).
    assert (Hall : word_only (name +:+ rest) = true).
    { rewrite <- Hs. unfold word_only. cbn [all]. by rewrite Hc, Ht. }
    unfold word_only in Hall. rewrite all_app in Hall.
    apply andb_true_iff in Hall as [_ Hall].
    rewrite (word_only_next rest Hall Hrest), append_nil_r in Hs.
    apply is_variable_name_In in Hin. congruence.
Qed.

(** The rest of a pattern is only ever tried on a suffix of the text. *)
Lemma run_local (r : Re.regex) :
  forall (R : Type) (prev : option ascii) (s : string) (caps : Re.captures)
         (k k' : option ascii -> string -> Re.captures -> option R),
    (forall p s' c, String.length s' <= String.length s -> k p s' c = k' p s' c) ->
    Re.run r prev s caps k = Re.run r prev s caps k'.
Proof.
  induction r as [|c|negate cs| |r1 IH1 r2 IH2|r1 IH1 r2 IH2|r1 IH1|n r1 IH1];
    intros R prev s caps k k' Hk.
  - by apply Hk.
  - simpl. destruct s as [|a s]; [done|].
    destruct (Ascii.eqb a c); [|done]. apply Hk. simpl. lia.
  - simpl. destruct s as [|a s]; [done|].
    destruct (xorb negate (existsb (Ascii.eqb a) cs)); [|done]. apply Hk. simpl. lia.
  - simpl. destruct (xorb _ _); [by apply Hk | done].
  - rewrite !run_Cat. apply IH1. intros p s' c Hs'.
    apply IH2. intros p' s'' c' Hs''. apply Hk. lia.
  - simpl. rewrite (IH1 R prev s caps k k' Hk). by rewrite (IH2 R prev s caps k k' Hk).
  - rewrite !run_Plus. generalize (S (S (String.length s))) as fuel.
    generalize true as first.
    assert (Hn : String.length s <= String.length s) by lia.
    revert Hn. generalize s at 1 3 4 as s0. intros s0 Hn first fuel.
    revert first prev s0 caps Hn.
    induction fuel as [|fuel IHf]; intros first prev s0 caps Hn; [done|].
    simpl. apply IH1. intros p s' c Hs'.
    destruct (first || (String.length s' <? String.length s0)).
    + rewrite IHf by lia. by rewrite Hk by lia.
    + apply Hk. lia.
  - rewrite !run_Group. apply IH1. intros p s' c Hs'. by apply Hk.
Qed.

(** The fuel given to the loop is enough: more of it changes nothing. *)
Lemma plus_loop_fuel {R : Type} (r1 : Re.regex)
    (k : option ascii -> string -> Re.captures -> option R) :
  forall (fuel fuel' : nat) (first : bool) (prev : option ascii) (s : string)
         (caps : Re.captures),
    String.length s + (if first then 1 else 0) < fuel ->
    String.length s + (if first then 1 else 0) < fuel' ->
    plus_loop r1 k fuel first prev s caps = plus_loop r1 k fuel' first prev s caps.
Proof.
  induction fuel as [|fuel IH]; intros fuel' first prev s caps H1 H2; [lia|].
  destruct fuel' as [|fuel']; [lia|].
  simpl. apply run_local. intros p s' c Hs'.
  destruct (first || (String.length s' <? String.length s)) eqn:E; [|done].
  rewrite (IH fuel' false); [done| |].
  - destruct first; simpl in *; [lia|]. apply Nat.ltb_lt in E. lia.
  - destruct first; simpl in *; [lia|]. apply Nat.ltb_lt in E. lia.
Qed.

Lemma run_Boundary {R : Type} (prev : option ascii) (s : string)
    (caps : Re.captures) (k : option ascii -> string -> Re.captures -> option R) :
  xorb (Re.is_word_at prev) (Re.is_word_at (Re.next_char s)) = true ->
  Re.run Re.Boundary prev s caps k = k prev s caps.
Proof. intros H. simpl. by rewrite H. Qed.

Lemma run_Alt {R : Type} (r1 r2 : Re.regex) (prev : option ascii) (s : string)
    (caps : Re.captures) (k : option ascii -> string -> Re.captures -> option R) :
  Re.run (Re.Alt r1 r2) prev s caps k =
  match Re.run r1 prev s caps k with
  | Some x => Some x
  | None => Re.run r2 prev s caps k
  end.
Proof. reflexivity. Qed.

(** An alternative whose literal differs from the text at once is passed
    over. *)
Ltac skip_alternative :=
  match goal with
  | |- context [match Re.run (Re.lit ?t) ?p ?s ?c ?k with _ => _ end] =>
      first [ change (Re.run (Re.lit t) p s c k) with (@None Re.match_object)
            | idtac ]
  end.

Lemma variable_name_head (name : string) :
  In name VARIABLE_NAMES ->
  exists c t, name = String c t /\ Re.is_word c = true.
Proof.
  simpl. intros [<-|[<-|[<-|[<-|[]]]]]; eexists _, _; by split.
Qed.

(** The variable pattern matches a name that has no word character on
    either side. *)
Lemma match_variable_here (b : bool) (prev : option ascii) (name rest : string) :
  In name VARIABLE_NAMES ->
  Re.is_word_at prev = false ->
  Re.is_word_at (Re.next_char rest) = false ->
  Re.match_here UpdateUtils.VARIABLES b prev (name +:+ rest) =
    Some (Re.MatchObject name [(1, name)] rest).
Proof.
  intros Hin Hprev Hrest. unfold Re.match_here.
  set (k := fun (_ : option ascii) s' caps => _).
  assert (Hk : k (Some "s"%char) rest [(1, name)] =
               Some (Re.MatchObject name [(1, name)] rest)).
  { unfold k. rewrite take_length_diff.
    replace (String.length rest =? String.length (name +:+ rest)) with false;
      [by rewrite andb_false_r|].
    symmetry. apply Nat.eqb_neq. rewrite append_length.
    destruct (variable_name_head name Hin) as (c & t & -> & _). simpl. lia. }
  clearbody k. unfold UpdateUtils.VARIABLES. rewrite run_Group, run_Cat.
  rewrite run_Boundary.
  2:{ destruct (variable_name_head name Hin) as (c & t & -> & Hc).
      rewrite Hprev. simpl. by rewrite Hc. }
  rewrite run_Cat.
  assert (Htail : forall (stem : string) (p : option ascii),
            name = stem +:+ "Utils" ->
            Re.run (Re.Cat (Re.lit "Utils") Re.Boundary) p ("Utils" +:+ rest) []
              (fun prev' s' caps' =>
                 k prev' s'
                   ((1, Str.take (String.length (name +:+ rest) - String.length s')
                          (name +:+ rest)) :: caps')) =
            Some (Re.MatchObject name [(1, name)] rest)).
  { intros stem p Hname. rewrite run_Cat, run_lit, run_Boundary.
    - by rewrite take_length_diff.
    - simpl. by rewrite Hrest. }
  simpl in Hin. destruct Hin as [<-|[<-|[<-|[<-|[]]]]].
  - rewrite run_Alt. rewrite (run_lit "Core" prev ("Utils" +:+ rest)).
    by rewrite (Htail "Core").
  - do 2 (rewrite run_Alt; skip_alternative).
    rewrite (run_lit "Email" prev ("Utils" +:+ rest)). by rewrite (Htail "Email").
  - do 3 (rewrite run_Alt; skip_alternative).
    rewrite (run_lit "Analysis" prev ("Utils" +:+ rest)).
    by rewrite (Htail "Analysis").
  - do 3 (rewrite run_Alt; skip_alternative).
    rewrite (run_lit "Data" prev ("Utils" +:+ rest)). by rewrite (Htail "Data").
Qed.

(** The variable pattern does not match where the text starts with a
    character that is not a word character, or is at its end. *)
Lemma no_variable_at_nonword (b : bool) (prev : option ascii) (s : string) :
  Re.is_word_at (Re.next_char s) = false ->
  Re.match_here UpdateUtils.VARIABLES b prev s = None.
Proof.
  intros Hs. destruct (Re.match_here _ _ _ _) as [m|] eqn:E; [|done].
  apply match_variable_inv in E as (name & rest & Hin & -> & _).
  destruct (variable_name_head name Hin) as (c & t & -> & Hc).
  simpl in Hs. congruence.
Qed.

Lemma sub_variables_nonword_start (repl : Re.match_object -> string)
    (prev prev' : option ascii) (s : string) :
  Re.is_word_at (Re.next_char s) = false ->
  Re.sub_go UpdateUtils.VARIABLES repl 0 prev s =
  Re.sub_go UpdateUtils.VARIABLES repl 0 prev' s.
Proof.
  intros Hs. destruct s as [|c t].
  - cbn [Re.sub_go]. by rewrite !no_variable_at_nonword.
  - by rewrite !sub_go_no_match by by apply no_variable_at_nonword.
Qed.

Lemma sub_variables_nonword (repl : Re.match_object -> string) (pre s : string) :
  nonword_only pre = true ->
  forall prev : option ascii,
    Re.sub_go UpdateUtils.VARIABLES repl 0 prev (pre +:+ s) =
    pre +:+ Re.sub_go UpdateUtils.VARIABLES repl 0 (last_char prev pre) s.
Proof.
  induction pre as [|c pre IH]; intros Hpre prev; [done|].
  unfold nonword_only in Hpre. cbn [all] in Hpre.
  apply andb_true_iff in Hpre as [Hc Hpre].
  change (String c pre +:+ s) with (String c (pre +:+ s)).
  rewrite sub_go_no_match.
  - by rewrite IH.
  - apply no_variable_at_nonword. simpl. by destruct (Re.is_word c).
Qed.

Lemma last_char_nonword (pre : string) :
  nonword_only pre = true ->
  forall prev : option ascii,
    Re.is_word_at prev = false -> Re.is_word_at (last_char prev pre) = false.
Proof.
  induction pre as [|c pre IH]; intros Hpre prev Hprev; [done|].
  unfold nonword_only in Hpre. cbn [all] in Hpre.
  apply andb_true_iff in Hpre as [Hc Hpre].
  cbn [last_char]. apply IH; [done|]. simpl. by destruct (Re.is_word c).
Qed.

(** Pass 2 on a name that stands alone, after text without word characters:
    the text is kept, the name gets the prefix, and the scan goes on after
    it. *)
Lemma pass2_standalone (pre name post : string) :
  nonword_only pre = true ->
  In name VARIABLE_NAMES ->
  Re.is_word_at (Re.next_char post) = false ->
  UpdateUtils.pass2 (pre +:+ name +:+ post) =
  pre +:+ "Utils_" +:+ name +:+ UpdateUtils.pass2 post.
Proof.
  intros Hpre Hin Hpost. unfold UpdateUtils.pass2, Re.sub.
  set (repl := fun m : Re.match_object => _).
  rewrite sub_variables_nonword by done. f_equal.
  pose proof (match_variable_here false (last_char None pre) name post Hin
                (last_char_nonword pre Hpre None eq_refl) Hpost) as Hm.
  destruct (variable_name_head name Hin) as (c & t & -> & _).
  change (String c t +:+ post) with (String c (t +:+ post)) in Hm |- *.
  rewrite (sub_go_match _ repl _ _ _ _ Hm) by done.
  cbn [Re.matched]. replace (String.length (String c t) - 1)
    with (String.length t) by (simpl; lia).
  rewrite sub_go_skip.
  rewrite (sub_variables_nonword_start repl _ None post Hpost).
  unfold repl at 1. cbn [Re.group Re.lookup_group Re.groups Re.fmt Nat.eqb].
  by rewrite append_assoc.
Qed.

(** ** The include pattern over any text *)

Lemma include_needs_quote (q : ascii) (rest : string) :
  is_quote q = true -> quote_free ("include(" +:+ String q rest) = false.
Proof.
  intros Hq. unfold quote_free.
  change ("include(" +:+ String q rest) with ("include(" +:+ (String q rest)).
  rewrite all_app. cbn [all]. rewrite Hq. apply andb_false_iff. by right.
Qed.

Lemma quote_free_no_include (b : bool) (prev : option ascii) (s : string) :
  quote_free s = true ->
  Re.match_here UpdateUtils.INCLUDE b prev s = None.
Proof.
  intros Hs. destruct (Re.match_here _ _ _ _) as [m|] eqn:E; [|done].
  apply match_include_inv in E as (q & rest & -> & Hq).
  by rewrite include_needs_quote in Hs.
Qed.

Lemma sub_include_quote_free (repl : Re.match_object -> string) (s : string) :
  quote_free s = true ->
  forall prev : option ascii, Re.sub_go UpdateUtils.INCLUDE repl 0 prev s = s.
Proof.
  induction s as [|c s IH]; intros Hs prev.
  - cbn [Re.sub_go]. by rewrite quote_free_no_include.
  - rewrite sub_go_no_match by by apply quote_free_no_include.
    unfold quote_free in Hs. cbn [all] in Hs.
    apply andb_true_iff in Hs as [_ Hs]. by rewrite IH.
Qed.

(** Two ways of cutting one text in two differ by a middle piece. *)
Lemma append_eq_append (a b c d : string) :
  a +:+ b = c +:+ d ->
  exists k, (a = c +:+ k /\ d = k +:+ b) \/ (c = a +:+ k /\ b = k +:+ d).
Proof.
  revert c; induction a as [|x a IH]; intros c H.
  - exists c. right. by split.
  - destruct c as [|y c].
    + exists (String x a). left. by split.
    + simpl in H. injection H as -> H. apply IH in H as (k & [[-> ->]|[-> ->]]).
      * exists k. left. by split.
      * exists k. right. by split.
Qed.

(** The first quote character of a text is where it is. *)
Lemma first_quote_unique (a b c d : string) (q1 q2 : ascii) :
  a +:+ String q1 b = c +:+ String q2 d ->
  quote_free a = true -> quote_free c = true ->
  is_quote q1 = true -> is_quote q2 = true ->
  a = c /\ q1 = q2 /\ b = d.
Proof.
  revert c; induction a as [|x a IH]; intros c H Ha Hc Hq1 Hq2.
  - destruct c as [|y c]; simpl in H.
    + by injection H as -> ->.
    + injection H as <- _. unfold quote_free in Hc. cbn [all] in Hc.
      by rewrite Hq1 in Hc.
  - unfold quote_free in Ha. cbn [all] in Ha.
    apply andb_true_iff in Ha as [Hx Ha].
    destruct c as [|y c]; simpl in H.
    + injection H as -> _. by rewrite Hq2 in Hx.
    + injection H as -> H. unfold quote_free in Hc. cbn [all] in Hc.
      apply andb_true_iff in Hc as [_ Hc].
      destruct (IH c H Ha Hc Hq1 Hq2) as (-> & -> & ->). done.
Qed.

(** A match of the include pattern is not affected by what follows the
    closing parenthesis. *)
Lemma match_include_extend (b : bool) (prev : option ascii) (u r : string)
    (m : Re.match_object) :
  Re.match_here UpdateUtils.INCLUDE b prev u = Some m ->
  Re.match_here UpdateUtils.INCLUDE b prev (u +:+ r) =
    Some (Re.MatchObject (Re.matched m) (Re.groups m) (Re.after m +:+ r)).
Proof.
  intros H.
  destruct (match_include_shape _ _ _ _ H)
    as (q1 & q2 & x & Hq1 & Hq2 & Hx & Hfree & Hu & _).
  pose proof (match_include_call b prev q1 q2 x (Re.after m) Hq1 Hq2 Hx Hfree) as H'.
  rewrite <- Hu, H in H'. injection H' as ->. cbn [Re.matched Re.groups Re.after].
  rewrite Hu at 1. rewrite append_assoc.
  by apply match_include_call.
Qed.

(** No match of the include pattern begins before an include call and runs
    into it, unless the call's argument begins with a closing parenthesis. *)
Lemma match_include_no_straddle (b : bool) (prev : option ascii)
    (u t : string) (q : ascii) :
  u <> "" ->
  Re.match_here UpdateUtils.INCLUDE b prev u = None ->
  is_quote q = true -> Str.startswith t ")" = false ->
  Re.match_here UpdateUtils.INCLUDE b prev (u +:+ "include(" +:+ String q t) = None.
Proof.
  intros Hu Hnone Hq Ht.
  destruct (Re.match_here _ _ _ (u +:+ _)) as [m|] eqn:E; [|done].
  exfalso.
  destruct (match_include_shape _ _ _ _ E)
    as (q1 & q2 & x & Hq1 & Hq2 & Hx & Hfree & Hs & _).
  clear E. revert Hs. generalize (Re.after m) as post. intros post Hs.
  rewrite include_call_app in Hs.
  do 8 (destruct u as [|? u]; simpl in Hs;
        [try done; discriminate Hs | injection Hs as -> Hs]).
  destruct u as [|? u]; simpl in Hs.
  { injection Hs as <- _. discriminate Hq1. }
  injection Hs as -> Hs.
  apply append_eq_append in Hs as (k & [[-> Hk]|[-> Hk]]).
  - destruct k as [|? k]; simpl in Hk.
    { injection Hk as -> _. discriminate Hq2. }
    injection Hk as <- Hk.
    destruct k as [|? k]; simpl in Hk; [discriminate Hk|].
    injection Hk as <- Hk.
    pose proof (match_include_call b prev q1 q2 x k Hq1 Hq2 Hx Hfree) as Hm.
    rewrite include_call_app in Hm. simpl in Hm. by rewrite Hm in Hnone.
  - unfold quote_free in Hfree. rewrite all_app in Hfree.
    apply andb_true_iff in Hfree as [_ Hkfree].
    symmetry in Hk.
    apply (first_quote_unique k _ "include(" _ q2 q) in Hk as (_ & _ & <-);
      try done.
Qed.

(** The scan for include calls treats the text before an include call on
    its own: every match begun there ends there. *)
Lemma sub_include_app (repl : Re.match_object -> string) (t : string) (q : ascii) :
  (forall (a : string) (g : Re.captures) (r r' : string),
     repl (Re.MatchObject a g r) = repl (Re.MatchObject a g r')) ->
  is_quote q = true -> Str.startswith t ")" = false ->
  forall (u : string) (skip : nat) (prev : option ascii),
    skip <= String.length u ->
    Re.sub_go UpdateUtils.INCLUDE repl skip prev (u +:+ "include(" +:+ String q t) =
    Re.sub_go UpdateUtils.INCLUDE repl skip prev u +:+
    Re.sub_go UpdateUtils.INCLUDE repl 0 None ("include(" +:+ String q t).
Proof.
  intros Hrepl Hq Ht. induction u as [|c u IH]; intros skip prev Hskip.
  - simpl in Hskip. replace skip with 0 by lia.
    change (Re.sub_go UpdateUtils.INCLUDE repl 0 prev "") with "".
    by apply sub_go_prev_irrel.
  - change (String c u +:+ "include(" +:+ String q t)
      with (String c (u +:+ "include(" +:+ String q t)).
    destruct skip as [|skip].
    + destruct (Re.match_here UpdateUtils.INCLUDE false prev (String c u))
        as [m|] eqn:E.
      * pose proof (match_include_extend _ _ _ ("include(" +:+ String q t) _ E) as E'.
        change (String c u +:+ "include(" +:+ String q t)
          with (String c (u +:+ "include(" +:+ String q t)) in E'.
        destruct (match_include_shape _ _ _ _ E)
          as (q1 & q2 & x & _ & _ & _ & _ & Hu & Hm & _).
        assert (Hne : Re.matched m <> "") by by rewrite Hm.
        rewrite (sub_go_match _ repl _ _ _ _ E') by done.
        rewrite (sub_go_match _ repl _ _ _ _ E) by done.
        cbn [Re.matched]. rewrite IH.
        -- rewrite append_assoc. f_equal. destruct m. apply Hrepl.
        -- apply (f_equal String.length) in Hu. rewrite append_length in Hu.
           rewrite <- Hm in Hu. simpl in Hu. lia.
      * pose proof (match_include_no_straddle false prev (String c u) t q
                      ltac:(done) E Hq Ht) as E'.
        change (String c u +:+ "include(" +:+ String q t)
          with (String c (u +:+ "include(" +:+ String q t)) in E'.
        rewrite (sub_go_no_match _ _ _ _ _ E'), (sub_go_no_match _ _ _ _ _ E).
        rewrite IH by lia. done.
    + cbn [Re.sub_go]. apply IH. simpl in Hskip. lia.
Qed.

(** Pass 1 on an include call anywhere in a text: the call gets the prefixed
    argument in double quotes and the text on either side is rewritten on
    its own, when the argument does not begin with a closing parenthesis or
    the text before the call has no quote character. *)
Lemma pass1_call_anywhere (pre post x : string) (q1 q2 : ascii) :
  is_quote q1 = true -> is_quote q2 = true ->
  x <> "" -> quote_free x = true ->
  Str.startswith x ")" = false \/ quote_free pre = true ->
  UpdateUtils.pass1 (pre +:+ include_call q1 x q2 +:+ post) =
  UpdateUtils.pass1 pre +:+ include_call dq ("Utils_" +:+ x) dq
    +:+ UpdateUtils.pass1 post.
Proof.
  intros Hq1 Hq2 Hx Hfree [Hparen|Hpre].
  - pose proof (pass1_include_call "" post x q1 q2 eq_refl Hq1 Hq2 Hx Hfree) as Hcall.
    change ("" +:+ include_call q1 x q2 +:+ post)
      with (include_call q1 x q2 +:+ post) in Hcall.
    change ("" +:+ include_call dq ("Utils_" +:+ x) dq +:+ UpdateUtils.pass1 post)
      with (include_call dq ("Utils_" +:+ x) dq +:+ UpdateUtils.pass1 post) in Hcall.
    rewrite <- Hcall. unfold UpdateUtils.pass1, Re.sub.
    set (repl := fun m : Re.match_object => _).
    assert (Hshape : include_call q1 x q2 +:+ post =
                     "include(" +:+ String q1 (x +:+ String q2 (String ")" post))).
    { unfold include_call. simpl. by rewrite append_assoc. }
    rewrite Hshape. apply sub_include_app; [done | done | | simpl; lia].
    destruct x as [|a x]; [done|]. exact Hparen.
  - rewrite pass1_include_call by done.
    unfold UpdateUtils.pass1 at 2, Re.sub. by rewrite sub_include_quote_free.
Qed.

(** * The properties *)

(** C1, as stated, fails: the second run leaves [Utils_CoreUtils] as it
    is. *)
Lemma updater_second_run_example :
  exists w1 w2 : world,
    UpdateUtils.update_file_content "Code.gs" core_utils_world = (inr tt, w1) /\
    files w1 !! "Code.gs" = Some "Utils_CoreUtils" /\
    UpdateUtils.update_file_content "Code.gs" w1 = (inr tt, w2) /\
    files w2 !! "Code.gs" = Some "Utils_CoreUtils" /\
    String.eqb "Utils_CoreUtils" "Utils_Utils_CoreUtils" = false.
Proof.
  eexists _, _. split.
  { apply (update_update_file_content_spec "Code.gs" core_utils_world "CoreUtils").
    reflexivity. }
  cbn [files]. split; [rewrite lookup_insert_eq; by vm_compute|]. split.
  { apply (update_update_file_content_spec "Code.gs" _ "Utils_CoreUtils").
    cbn [files]. rewrite lookup_insert_eq. by vm_compute. }
  cbn [files]. split; [rewrite lookup_insert_eq; by vm_compute | reflexivity].
Qed.

(** C1, as the code has it.  The Reference Updater is not idempotent, but
    not on the names: on a file holding [CoreUtils] one run leaves
    [Utils_CoreUtils] and a second run leaves it as it is, the underscore being
    a word character (and so for each of the nine names).  The prefix is
    injected again on the argument of an include call: [include(dq Foo dq)]
    becomes [include(dq Utils_Foo dq)] and then [include(dq Utils_Utils_Foo dq)]. *)
Theorem updater_rerun :
  (forall (w : world) (name c : string),
     files w !! name = Some c ->
     exists w1 w2 : world,
       UpdateUtils.update_file_content name w = (inr tt, w1) /\
       UpdateUtils.update_file_content name w1 = (inr tt, w2) /\
       files w1 !! name = Some (rewritten c) /\
       files w2 !! name = Some (rewritten (rewritten c))) /\
  rewritten "CoreUtils" = "Utils_CoreUtils" /\
  rewritten "Utils_CoreUtils" = "Utils_CoreUtils" /\
  Forall (fun n => rewritten n = "Utils_" +:+ n /\
                   rewritten ("Utils_" +:+ n) = "Utils_" +:+ n)
         (VARIABLE_NAMES ++ SECTION_NAMES) /\
  rewritten (include_call dq "Foo" dq) = include_call dq "Utils_Foo" dq /\
  rewritten (include_call dq "Utils_Foo" dq) = include_call dq "Utils_Utils_Foo" dq.
Proof.
  split.
  - intros w name c Hc. eexists _, _.
    split; [by apply update_update_file_content_spec|].
    split; [apply update_update_file_content_spec; apply lookup_insert_eq|].
    cbn [files]. by rewrite !lookup_insert_eq.
  - split; [by vm_compute|]. split; [by vm_compute|].
    split; [|by vm_compute].
    repeat (apply Forall_cons; split; [by vm_compute|]). by apply Forall_nil.
Qed.

Lemma updater_rerun_witness :
  exists w1 w2 : world,
    UpdateUtils.update_file_content "Code.gs" core_utils_world = (inr tt, w1) /\
    UpdateUtils.update_file_content "Code.gs" w1 = (inr tt, w2) /\
    files w1 !! "Code.gs" = Some (rewritten "CoreUtils") /\
    files w2 !! "Code.gs" = Some (rewritten (rewritten "CoreUtils")).
Proof.
  apply (proj1 updater_rerun core_utils_world "Code.gs" "CoreUtils").
  reflexivity.
Defined.

(** C2, as stated, fails: deleting the occurrence inside
    [Utils_Utils_MainMain] joins the text around it into a new occurrence,
    and a second run deletes that one too. *)
Lemma facade_remover_nested_token :
  exists w1 w2 : world,
    RemoveFacade.update_file_content "Code.gs" nested_token_world = (inr tt, w1) /\
    files w1 !! "Code.gs" = Some "Utils_Main" /\
    Str.contains "Utils_Main" "Utils_Main" = true /\
    RemoveFacade.update_file_content "Code.gs" w1 = (inr tt, w2) /\
    files w2 !! "Code.gs" = Some "".
Proof.
  eexists _, _. split.
  { apply (remove_update_file_content_spec "Code.gs" nested_token_world
             "Utils_Utils_MainMain"). reflexivity. }
  simpl. split; [apply lookup_insert_eq|]. split; [reflexivity|]. split.
  { apply (remove_update_file_content_spec "Code.gs" _ "Utils_Main").
    apply lookup_insert_eq. }
  simpl. apply lookup_insert_eq.
Qed.

(** C2, as the code has it.  The Facade Remover rewrites an existing file by
    one scan that deletes the occurrences of [Utils_Main] it meets, so
    [callUtils_MainThing()] becomes [callThing()]; a content without the token
    is left as it is, and whenever the rewritten content holds no occurrence a
    second run leaves the file system unchanged. *)
Theorem facade_remover_rerun (w : world) (name c : string) :
  files w !! name = Some c ->
  Str.contains "Utils_Main" (Str.replace "Utils_Main" "" c) = false ->
  exists w1 : world,
    RemoveFacade.update_file_content name w = (inr tt, w1) /\
    files w1 !! name = Some (Str.replace "Utils_Main" "" c) /\
    RemoveFacade.update_file_content name w1 = (inr tt, w1) /\
    (Str.contains "Utils_Main" c = false -> w1 = w) /\
    Str.replace "Utils_Main" "" "callUtils_MainThing()" = "callThing()".
Proof.
  intros Hc Hfree. eexists. split; [by apply remove_update_file_content_spec|].
  cbn [files stdout]. rewrite lookup_insert_eq.
  split; [done|]. split; [|split; [|done]].
  - rewrite (remove_update_file_content_spec name _ _ (lookup_insert_eq _ _ _)).
    cbn [files stdout]. rewrite insert_insert_eq.
    by rewrite (replace_absent "Utils_Main" "" _ ltac:(done) Hfree).
  - intros Hin. rewrite (replace_absent "Utils_Main" "" _ ltac:(done) Hin).
    destruct w as [fs out]. cbn [files stdout] in *.
    by rewrite (insert_id fs name c Hc).
Qed.

Lemma facade_remover_rerun_witness :
  exists w1 : world,
    RemoveFacade.update_file_content "Code.gs" facade_call_world = (inr tt, w1) /\
    files w1 !! "Code.gs" = Some "callThing()" /\
    RemoveFacade.update_file_content "Code.gs" w1 = (inr tt, w1).
Proof.
  destruct (facade_remover_rerun facade_call_world "Code.gs"
              "callUtils_MainThing()" eq_refl eq_refl)
    as (w1 & E1 & F1 & E2 & _).
  exists w1. split; [exact E1|]. split; [exact F1 | exact E2].
Defined.

(** C3, as stated, fails: [include(dq Foo')] is matched and rewritten. *)
Lemma pass1_mismatched_example :
  UpdateUtils.pass1 ("include(" +:+ String dq "Foo')") =
    "include(" +:+ String dq "Utils_Foo" +:+ String dq ")" /\
  String.eqb (UpdateUtils.pass1 ("include(" +:+ String dq "Foo')"))
             ("include(" +:+ String dq "Foo')") = false.
Proof. by vm_compute. Qed.

(** C3, as the code has it.  The two quotes of an include call are matched
    each on its own, so a call whose closing quote differs from its opening
    quote is matched like any other.  With a non-empty argument X without
    quote characters such a call, wherever it stands, is replaced by
    [include(dq Utils_X dq)], which differs from it, and the text on either
    side is rewritten on its own; this holds when X does not begin with [)]
    or the text before the call has no quote character. *)
Theorem pass1_mismatched_quotes (pre post x : string) (q1 q2 : ascii) :
  is_quote q1 = true -> is_quote q2 = true -> q1 <> q2 ->
  x <> "" -> quote_free x = true ->
  Str.startswith x ")" = false \/ quote_free pre = true ->
  UpdateUtils.pass1 (pre +:+ include_call q1 x q2 +:+ post) =
    UpdateUtils.pass1 pre +:+ include_call dq ("Utils_" +:+ x) dq
      +:+ UpdateUtils.pass1 post /\
  include_call dq ("Utils_" +:+ x) dq <> include_call q1 x q2.
Proof.
  intros Hq1 Hq2 _ Hx Hfree Hpre. split; [by apply pass1_call_anywhere|].
  intros E. apply (f_equal String.length) in E. unfold include_call in E.
  rewrite !append_length in E. cbn [String.length] in E.
  rewrite !append_length in E. cbn [String.length] in E. lia.
Qed.

Lemma pass1_mismatched_quotes_witness :
  UpdateUtils.pass1
    (("f(" +:+ String dq ("a" +:+ String dq "); "))
       +:+ include_call sq "Code.gs" dq +:+ ";") =
    UpdateUtils.pass1 ("f(" +:+ String dq ("a" +:+ String dq "); "))
      +:+ include_call dq "Utils_Code.gs" dq +:+ UpdateUtils.pass1 ";" /\
  include_call dq "Utils_Code.gs" dq <> include_call sq "Code.gs" dq.
Proof.
  apply (pass1_mismatched_quotes
           ("f(" +:+ String dq ("a" +:+ String dq "); ")) ";" "Code.gs" sq dq).
  - reflexivity.
  - reflexivity.
  - discriminate.
  - discriminate.
  - reflexivity.
  - left. reflexivity.
Defined.

(** C4. With [Utils.gs] holding [a] and [Utils_Main.gs] holding [b], the
    Combiner ends without an exception, leaves in [Utils_Main.gs] the part of
    [b] before its first marker, then the marker on a line of its own, then
    all of [a], and deletes [Utils.gs]; every other file and the console are
    as before.  On [HEADER], the marker line and [OLD_BODY] combined with
    [NEW_BODY] this gives [HEADER], an empty line, the marker line and
    [NEW_BODY]. *)
Theorem combiner_result :
  (forall (w : world) (a b : string),
     files w !! "Utils.gs" = Some a ->
     files w !! "Utils_Main.gs" = Some b ->
     CombineUtils.combine_files w =
       (inr tt,
        World (delete "Utils.gs"
                 (<["Utils_Main.gs" := before_marker b +:+ MARKER_LINE +:+ a]>
                    (files w)))
              (stdout w))) /\
  (forall w : world,
     files w !! "Utils.gs" = Some "NEW_BODY" ->
     files w !! "Utils_Main.gs" =
       Some ("HEADER" +:+ String nl "// Export all functions directly"
             +:+ String nl "OLD_BODY") ->
     exists w',
       CombineUtils.combine_files w = (inr tt, w') /\
       files w' !! "Utils_Main.gs" =
         Some ("HEADER" +:+ String nl (String nl "// Export all functions directly")
               +:+ String nl "NEW_BODY") /\
       files w' !! "Utils.gs" = None).
Proof.
  split; [exact combine_files_spec|].
  intros w Ha Hb. eexists. split; [by apply combine_files_spec|].
  simpl. split.
  - by rewrite lookup_delete_ne, lookup_insert_eq.
  - by rewrite lookup_delete_eq.
Qed.

Lemma combiner_result_witness :
  files combiner_world !! "Utils.gs" = Some "NEW_BODY" /\
  exists w',
    CombineUtils.combine_files combiner_world = (inr tt, w') /\
    files w' !! "Utils_Main.gs" =
      Some ("HEADER" +:+ String nl (String nl "// Export all functions directly")
            +:+ String nl "NEW_BODY") /\
    files w' !! "Utils.gs" = None.
Proof.
  split; [reflexivity|].
  apply (proj2 combiner_result combiner_world); reflexivity.
Defined.

(** C5. Whatever [Utils_Main.gs] held, the Facade Restorer ends without an
    exception and leaves in it the part before the first marker followed by
    the constant block, so the new content ends with that block; the block is
    the marker on a line of its own followed by the [Object.assign] statement
    over the 17 exported names. *)
Theorem restorer_block (w : world) (content : string) :
  files w !! "Utils_Main.gs" = Some content ->
  RestoreFacade.restore_facade w =
    (inr tt,
     World (<["Utils_Main.gs" :=
                before_marker content +:+ RestoreFacade.FACADE_BLOCK]> (files w))
           (stdout w)) /\
  Str.endswith (before_marker content +:+ RestoreFacade.FACADE_BLOCK)
    RestoreFacade.FACADE_BLOCK = true /\
  RestoreFacade.FACADE_BLOCK = MARKER_LINE +:+ object_assign EXPORTS /\
  length EXPORTS = 17.
Proof.
  intros Hc. split; [by apply restore_facade_spec|].
  split; [apply endswith_app|]. by split.
Qed.

Lemma restorer_block_witness :
  exists header,
    (RestoreFacade.restore_facade stale_facade_world).2 =
      World (<["Utils_Main.gs" := header +:+ RestoreFacade.FACADE_BLOCK]>
               (files stale_facade_world)) [] /\
    header = "// imports" +:+ String nl "".
Proof.
  eexists. split.
  - rewrite (proj1 (restorer_block stale_facade_world _ eq_refl)). reflexivity.
  - reflexivity.
Defined.

(** C6, as stated, fails: an include call with an empty argument, and one
    whose argument holds the other quote character, are left as they are. *)
Lemma pass1_unrewritten_example :
  UpdateUtils.pass1 "include('')" = "include('')" /\
  String.eqb (UpdateUtils.pass1 "include('')")
             ("include(" +:+ String dq ("Utils_" +:+ String dq ")")) = false /\
  UpdateUtils.pass1 ("include(" +:+ String dq ("it's" +:+ String dq ")")) =
    "include(" +:+ String dq ("it's" +:+ String dq ")") /\
  String.eqb (UpdateUtils.pass1 ("include(" +:+ String dq ("it's" +:+ String dq ")")))
             ("include(" +:+ String dq ("Utils_it's" +:+ String dq ")")) = false.
Proof. by vm_compute. Qed.

(** C6, as the code has it.  Pass 1 rewrites an include call whose one quoted
    argument X is not empty and holds no quote character: wherever the call
    [include(] + quote + X + quote + [)] stands, it becomes the call with
    [Utils_] before X and the argument in double quotes, whichever quote
    character the source used, and the text on either side is rewritten on
    its own; this holds when X does not begin with [)] or the text before
    the call has no quote character.  What the pattern matches is always such
    a call, with X as group 1.  In particular [include('Foo')] becomes
    [include(dq Utils_Foo dq)].  The condition on [)] cannot be dropped: in
    [include(dq ainclude(')')] the match that begins at the first [include(]
    takes the opening quote of the second call as its closing quote. *)
Theorem pass1_rewrites_include :
  (forall (pre post x : string) (q : ascii),
     is_quote q = true ->
     x <> "" -> quote_free x = true ->
     Str.startswith x ")" = false \/ quote_free pre = true ->
     UpdateUtils.pass1 (pre +:+ include_call q x q +:+ post) =
       UpdateUtils.pass1 pre +:+ include_call dq ("Utils_" +:+ x) dq
         +:+ UpdateUtils.pass1 post) /\
  (forall (must_advance : bool) (prev : option ascii) (s : string)
          (m : Re.match_object),
     Re.match_here UpdateUtils.INCLUDE must_advance prev s = Some m ->
     exists (q1 q2 : ascii) (x : string),
       is_quote q1 = true /\ is_quote q2 = true /\
       x <> "" /\ quote_free x = true /\
       s = include_call q1 x q2 +:+ Re.after m /\
       Re.matched m = include_call q1 x q2 /\
       Re.group m 1 = Some x) /\
  UpdateUtils.pass1 "include('Foo')" =
    "include(" +:+ String dq "Utils_Foo" +:+ String dq ")" /\
  UpdateUtils.pass1 ("include(" +:+ String dq "ainclude(')')") =
    "include(" +:+ String dq ("Utils_ainclude(" +:+ String dq ")')").
Proof.
  split.
  - intros pre post x q Hq Hx Hfree Hpre. by apply pass1_call_anywhere.
  - split; [exact match_include_shape | by vm_compute].
Qed.

Lemma pass1_rewrites_include_witness :
  UpdateUtils.pass1
    (("log(" +:+ String dq ("start" +:+ String dq "); "))
       +:+ include_call sq "Foo" sq +:+ ";") =
    UpdateUtils.pass1 ("log(" +:+ String dq ("start" +:+ String dq "); "))
      +:+ include_call dq "Utils_Foo" dq +:+ UpdateUtils.pass1 ";".
Proof.
  apply (proj1 pass1_rewrites_include
           ("log(" +:+ String dq ("start" +:+ String dq "); ")) ";" "Foo" sq).
  - reflexivity.
  - discriminate.
  - reflexivity.
  - left. reflexivity.
Defined.

(** C7. Pass 2 rewrites a name only where it stands alone.  Of the texts
    made of word characters only, exactly the four names get the prefix; and
    a name with no word character on either side, after text without word
    characters, gets the prefix while the scan goes on after it.  So
    [CoreUtils] becomes [Utils_CoreUtils] and [MyCoreUtilsExtra] stays. *)
Theorem pass2_standalone_only :
  (forall w : string,
     word_only w = true ->
     UpdateUtils.pass2 w = if is_variable_name w then "Utils_" +:+ w else w) /\
  (forall pre name post : string,
     nonword_only pre = true ->
     In name VARIABLE_NAMES ->
     Re.is_word_at (Re.next_char post) = false ->
     UpdateUtils.pass2 (pre +:+ name +:+ post) =
       pre +:+ "Utils_" +:+ name +:+ UpdateUtils.pass2 post) /\
  UpdateUtils.pass2 "CoreUtils" = "Utils_CoreUtils" /\
  UpdateUtils.pass2 "MyCoreUtilsExtra" = "MyCoreUtilsExtra".
Proof.
  split; [exact pass2_word_only|]. split; [exact pass2_standalone|].
  by vm_compute.
Qed.

Lemma pass2_standalone_only_witness :
  UpdateUtils.pass2 "DataUtils2" = "DataUtils2" /\
  UpdateUtils.pass2 ("  " +:+ "DataUtils" +:+ ".formatDate(d)") =
    "  " +:+ "Utils_" +:+ "DataUtils" +:+ UpdateUtils.pass2 ".formatDate(d)".
Proof.
  split.
  - apply (proj1 pass2_standalone_only "DataUtils2"). reflexivity.
  - apply (proj1 (proj2 pass2_standalone_only) "  " "DataUtils" ".formatDate(d)");
      [reflexivity | simpl; tauto | reflexivity].
Defined.

(** C8. When [Utils_Main.gs] holds no occurrence of the marker, the Combiner
    keeps all of it: the new content is the old content, the marker on a line
    of its own, and all of [Utils.gs]. *)
Theorem combiner_marker_absent (w : world) (a b : string) :
  files w !! "Utils.gs" = Some a ->
  files w !! "Utils_Main.gs" = Some b ->
  Str.contains "// Export all functions directly" b = false ->
  exists w',
    CombineUtils.combine_files w = (inr tt, w') /\
    files w' !! "Utils_Main.gs" =
      Some (b +:+ (String nl "// Export all functions directly" +:+ String nl "")
              +:+ a).
Proof.
  intros Ha Hb Hm. eexists. split; [by apply combine_files_spec|].
  simpl. rewrite lookup_delete_ne, lookup_insert_eq by done.
  by rewrite (before_marker_absent b Hm).
Qed.

Lemma combiner_marker_absent_witness :
  exists w',
    CombineUtils.combine_files no_marker_world = (inr tt, w') /\
    files w' !! "Utils_Main.gs" =
      Some ("// imports only" +:+
            (String nl "// Export all functions directly" +:+ String nl "")
            +:+ "function f() {}").
Proof.
  apply (combiner_marker_absent no_marker_world); reflexivity.
Defined.

(** C9. In both list-iterating scripts the loop over the file list ends
    without an exception on every file system.  It prints one line per listed
    file that is on disk, in list order, and none for a file that is not; a
    listed file on disk has its content rewritten, and nothing else changes.
    (The Facade Remover then goes on to delete [Utils_Main.gs].) *)
Theorem missing_files_skipped (w : world) :
  (exists w' : world,
     RemoveFacade.update_each w = (inr tt, w') /\
     RemoveFacade.main w = os_remove "Utils_Main.gs" w' /\
     stdout w' =
       stdout w ++
       (String.append "Updated: " <$>
          filter (on_disk w) RemoveFacade.files_to_update) /\
     forall name : string,
       files w' !! name =
         if decide (name ∈ RemoveFacade.files_to_update)
         then Str.replace "Utils_Main" "" <$> files w !! name
         else files w !! name) /\
  (exists w' : world,
     UpdateUtils.main w = (inr tt, w') /\
     stdout w' =
       stdout w ++
       (String.append "Updated: " <$>
          filter (on_disk w) UpdateUtils.files_to_update) /\
     forall name : string,
       files w' !! name =
         if decide (name ∈ UpdateUtils.files_to_update)
         then rewritten <$> files w !! name
         else files w !! name).
Proof.
  split.
  - destruct (for_each_loop_body RemoveFacade.update_file_content _
                remove_update_file_content_spec _ files_to_update_NoDup w)
      as (w' & E & Hout & Hfiles).
    exists w'. split; [exact E|]. split; [|by split].
    unfold RemoveFacade.main, mbind, M_bind.
    change (RemoveFacade.update_each w)
      with (for_each RemoveFacade.files_to_update
              (loop_body RemoveFacade.update_file_content) w).
    by rewrite E.
  - apply (for_each_loop_body UpdateUtils.update_file_content _
             update_update_file_content_spec _ files_to_update_NoDup).
Qed.

(** C10. The Facade Restorer is not idempotent on the header: with [h] the
    part of the old content before its first marker, one run leaves [h]
    followed by the block, and a second run leaves [h], one more line feed,
    and the block.  The two contents differ, and from their first marker on
    they are the same text. *)
Theorem restorer_twice (w : world) (content : string) :
  files w !! "Utils_Main.gs" = Some content ->
  exists w1 w2 : world,
    RestoreFacade.restore_facade w = (inr tt, w1) /\
    RestoreFacade.restore_facade w1 = (inr tt, w2) /\
    let h := before_marker content in
    let once := h +:+ RestoreFacade.FACADE_BLOCK in
    let twice := h +:+ String nl RestoreFacade.FACADE_BLOCK in
    files w1 !! "Utils_Main.gs" = Some once /\
    files w2 !! "Utils_Main.gs" = Some twice /\
    once <> twice /\
    from_marker once = from_marker twice.
Proof.
  intros Hc.
  pose proof (before_marker_free content) as Hfree.
  set (h := before_marker content) in *.
  assert (H1 : before_marker (h +:+ RestoreFacade.FACADE_BLOCK) = h +:+ String nl "").
  { apply (before_marker_app h (String nl (object_assign EXPORTS)) Hfree). }
  assert (Hfree' : Str.find MARKER (h +:+ String nl "") = None).
  { rewrite <- H1. apply before_marker_free. }
  eexists _, _. split; [by apply restore_facade_spec|].
  split; [apply restore_facade_spec; simpl; apply lookup_insert_eq|].
  fold h. simpl. rewrite !lookup_insert_eq, H1, append_assoc. simpl.
  split; [done|]. split; [done|]. split.
  - intros E. apply (f_equal String.length) in E.
    rewrite !append_length in E. simpl in E. lia.
  - transitivity (MARKER +:+ String nl (object_assign EXPORTS)).
    + apply (from_marker_app h (String nl (object_assign EXPORTS)) Hfree).
    + symmetry.
      change (h +:+ String nl RestoreFacade.FACADE_BLOCK)
        with (h +:+ String nl "" +:+ RestoreFacade.FACADE_BLOCK).
      rewrite <- append_assoc.
      apply (from_marker_app (h +:+ String nl "")
               (String nl (object_assign EXPORTS)) Hfree').
Qed.

Lemma restorer_twice_witness :
  exists w1 w2 : world,
    RestoreFacade.restore_facade stale_facade_world = (inr tt, w1) /\
    RestoreFacade.restore_facade w1 = (inr tt, w2) /\
    files w1 !! "Utils_Main.gs" =
      Some ("// imports" +:+ String nl RestoreFacade.FACADE_BLOCK) /\
    files w2 !! "Utils_Main.gs" =
      Some ("// imports" +:+ String nl (String nl RestoreFacade.FACADE_BLOCK)).
Proof.
  destruct (restorer_twice stale_facade_world _ eq_refl)
    as (w1 & w2 & E1 & E2 & F1 & F2 & _).
  exists w1, w2. split; [exact E1|]. split; [exact E2|].
  split; [exact F1 | exact F2].
Defined.

(** * Further properties *)

(** ** The Combiner *)

(** X1. The Combiner opens [Utils.gs] first and [Utils_Main.gs] second; when
    one is missing it raises [FileNotFoundError] for the first missing one and
    leaves the world as it was (so [Utils.gs] is not deleted when
    [Utils_Main.gs] is missing).  It raises nothing else. *)
Theorem combiner_outcomes (w : world) :
  CombineUtils.main w =
    match files w !! "Utils.gs", files w !! "Utils_Main.gs" with
    | None, _ => (inl (FileNotFoundError "Utils.gs"), w)
    | Some _, None => (inl (FileNotFoundError "Utils_Main.gs"), w)
    | Some a, Some b =>
        (inr tt,
         World (delete "Utils.gs"
                  (<["Utils_Main.gs" := before_marker b +:+ MARKER_LINE +:+ a]>
                     (files w)))
               (stdout w))
    end.
Proof.
  destruct (files w !! "Utils.gs") as [a|] eqn:Ha.
  - destruct (files w !! "Utils_Main.gs") as [b|] eqn:Hb.
    + by apply combine_files_spec.
    + unfold CombineUtils.main, CombineUtils.combine_files, mbind, M_bind.
      unfold read_file at 1. rewrite Ha. unfold read_file. by rewrite Hb.
  - unfold CombineUtils.main, CombineUtils.combine_files, mbind, M_bind.
    unfold read_file at 1. by rewrite Ha.
Qed.

(** X2. What the Combiner writes can be taken apart again at the marker it
    wrote: the part before the first marker is the old header and one line
    feed, and from the first marker on the text is the marker, a line feed and
    all of [Utils.gs]. *)
Theorem combiner_body_kept (w : world) (a b : string) :
  files w !! "Utils.gs" = Some a ->
  files w !! "Utils_Main.gs" = Some b ->
  exists (w' : world) (merged : string),
    CombineUtils.main w = (inr tt, w') /\
    files w' !! "Utils_Main.gs" = Some merged /\
    before_marker merged = before_marker b +:+ String nl "" /\
    from_marker merged = MARKER +:+ String nl a.
Proof.
  intros Ha Hb. eexists _, _. split; [by apply combine_files_spec|].
  cbn [files]. rewrite lookup_delete_ne, lookup_insert_eq by done.
  split; [done|].
  pose proof (before_marker_free b) as Hfree.
  change (before_marker b +:+ MARKER_LINE +:+ a)
    with (before_marker b +:+ String nl (MARKER +:+ String nl a)).
  split.
  - by apply before_marker_app.
  - by apply from_marker_app.
Qed.

Lemma combiner_body_kept_witness :
  exists (w' : world) (merged : string),
    CombineUtils.main combiner_world = (inr tt, w') /\
    files w' !! "Utils_Main.gs" = Some merged /\
    before_marker merged = "HEADER" +:+ String nl (String nl "") /\
    from_marker merged = MARKER +:+ String nl "NEW_BODY".
Proof.
  apply (combiner_body_kept combiner_world "NEW_BODY"
           ("HEADER" +:+ String nl "// Export all functions directly"
            +:+ String nl "OLD_BODY")); reflexivity.
Defined.

(** X3. The Combiner cannot be run twice: after a run that succeeded,
    [Utils.gs] is gone, so the next run raises [FileNotFoundError] and changes
    nothing. *)
Theorem combiner_rerun_fails (w : world) (a b : string) :
  files w !! "Utils.gs" = Some a ->
  files w !! "Utils_Main.gs" = Some b ->
  exists w' : world,
    CombineUtils.main w = (inr tt, w') /\
    CombineUtils.main w' = (inl (FileNotFoundError "Utils.gs"), w').
Proof.
  intros Ha Hb. eexists. split; [by apply combine_files_spec|].
  unfold CombineUtils.main, CombineUtils.combine_files, mbind, M_bind.
  unfold read_file at 1. cbn [files]. by rewrite lookup_delete_eq.
Qed.

Lemma combiner_rerun_fails_witness :
  exists w' : world,
    CombineUtils.main combiner_world = (inr tt, w') /\
    CombineUtils.main w' = (inl (FileNotFoundError "Utils.gs"), w').
Proof.
  apply (combiner_rerun_fails combiner_world "NEW_BODY"
           ("HEADER" +:+ String nl "// Export all functions directly"
            +:+ String nl "OLD_BODY")); reflexivity.
Defined.

(** X4. The Facade Restorer run after the Combiner throws the merged body
    away: [Utils_Main.gs] ends up as the old header, one line feed and the
    constant block, whatever [Utils.gs] held, and [Utils.gs] stays deleted. *)
Theorem combine_then_restore (w : world) (a b : string) :
  files w !! "Utils.gs" = Some a ->
  files w !! "Utils_Main.gs" = Some b ->
  exists w1 w2 : world,
    CombineUtils.main w = (inr tt, w1) /\
    RestoreFacade.main w1 = (inr tt, w2) /\
    files w2 !! "Utils_Main.gs" =
      Some (before_marker b +:+ String nl RestoreFacade.FACADE_BLOCK) /\
    files w2 !! "Utils.gs" = None /\
    stdout w2 = stdout w.
Proof.
  intros Ha Hb. eexists _, _. split; [by apply combine_files_spec|].
  split.
  { apply restore_facade_spec. cbn [files].
    by rewrite lookup_delete_ne, lookup_insert_eq by done. }
  cbn [files stdout]. rewrite lookup_insert_eq.
  split; [|split; [|done]].
  - pose proof (before_marker_free b) as Hfree.
    change (before_marker b +:+ MARKER_LINE +:+ a)
      with (before_marker b +:+ String nl (MARKER +:+ String nl a)).
    rewrite (before_marker_app _ _ Hfree). by rewrite append_assoc.
  - by rewrite lookup_insert_ne, lookup_delete_eq by done.
Qed.

Lemma combine_then_restore_witness :
  exists w1 w2 : world,
    CombineUtils.main combiner_world = (inr tt, w1) /\
    RestoreFacade.main w1 = (inr tt, w2) /\
    files w2 !! "Utils_Main.gs" =
      Some ("HEADER" +:+ String nl (String nl RestoreFacade.FACADE_BLOCK)) /\
    files w2 !! "Utils.gs" = None /\
    stdout w2 = [].
Proof.
  apply (combine_then_restore combiner_world "NEW_BODY"
           ("HEADER" +:+ String nl "// Export all functions directly"
            +:+ String nl "OLD_BODY")); reflexivity.
Defined.

(** ** The Facade Restorer *)

Lemma find_app_char (sep h : string) (c : ascii) :
  Str.has_char c sep = false ->
  Str.find sep h = None ->
  Str.find sep (h +:+ String c "") = None.
Proof.
  intros Hc. induction h as [|b h IH]; intros Hh.
  - destruct sep as [|a sep]; [done|].
    simpl in Hc. apply orb_false_iff in Hc as [Hc _].
    simpl. by rewrite Hc.
  - simpl in Hh. simpl.
    destruct (Str.startswith (String b h) sep) eqn:E1; [done|].
    destruct (Str.find sep h) eqn:E2; [done|].
    destruct (Str.startswith (String b (h +:+ String c "")) sep) eqn:E.
    + apply (startswith_across (String b h) "" sep c) in E as [E|E]; congruence.
    + by rewrite IH.
Qed.

Lemma restore_facade_runs (n : nat) :
  forall (w : world) (h : string),
    Str.find MARKER h = None ->
    files w !! "Utils_Main.gs" = Some (h +:+ RestoreFacade.FACADE_BLOCK) ->
    run_times n RestoreFacade.main w =
      (inr tt,
       World (<["Utils_Main.gs" := h +:+ line_feeds n +:+ RestoreFacade.FACADE_BLOCK]>
                (files w))
             (stdout w)).
Proof.
  induction n as [|n IH]; intros w h Hh Hw.
  - destruct w as [fs out]. cbn [files stdout line_feeds] in *.
    change ("" +:+ RestoreFacade.FACADE_BLOCK) with RestoreFacade.FACADE_BLOCK.
    by rewrite (insert_id fs _ _ Hw).
  - cbn [run_times]. unfold mbind at 1, M_bind at 1.
    unfold RestoreFacade.main at 1. rewrite (restore_facade_spec w _ Hw).
    assert (H1 : before_marker (h +:+ RestoreFacade.FACADE_BLOCK) = h +:+ String nl "").
    { apply (before_marker_app h (String nl (object_assign EXPORTS)) Hh). }
    rewrite H1.
    rewrite (IH _ (h +:+ String nl "")).
    + cbn [files stdout]. rewrite insert_insert_eq.
      do 3 f_equal. by rewrite append_assoc.
    + by apply find_app_char.
    + cbn [files]. by rewrite lookup_insert_eq.
Qed.

(** X5. Every run of the Facade Restorer adds one line feed before the
    marker: with [h] the part of the content before its first marker, [n + 1]
    runs in a row leave [h], [n] line feeds and the constant block, and end
    without an exception. *)
Theorem restorer_many_runs (n : nat) (w : world) (content : string) :
  files w !! "Utils_Main.gs" = Some content ->
  run_times (S n) RestoreFacade.main w =
    (inr tt,
     World (<["Utils_Main.gs" :=
                before_marker content +:+ line_feeds n
                +:+ RestoreFacade.FACADE_BLOCK]> (files w))
           (stdout w)).
Proof.
  intros Hc. cbn [run_times]. unfold mbind, M_bind.
  unfold RestoreFacade.main at 1. rewrite (restore_facade_spec w _ Hc).
  rewrite (restore_facade_runs n _ (before_marker content)).
  - cbn [files stdout]. by rewrite insert_insert_eq.
  - apply before_marker_free.
  - cbn [files]. by rewrite lookup_insert_eq.
Qed.

Lemma restorer_many_runs_witness :
  (run_times 4 RestoreFacade.main stale_facade_world).2 =
    World (<["Utils_Main.gs" :=
               ("// imports" +:+ String nl "") +:+ line_feeds 3
               +:+ RestoreFacade.FACADE_BLOCK]> (files stale_facade_world))
          [].
Proof.
  rewrite (restorer_many_runs 3 stale_facade_world _ eq_refl). reflexivity.
Defined.

(** X6. Without [Utils_Main.gs] the Facade Restorer raises
    [FileNotFoundError] and creates nothing: the world is as it was, however
    often it is run. *)
Theorem restorer_missing_file (n : nat) (w : world) :
  files w !! "Utils_Main.gs" = None ->
  run_times (S n) RestoreFacade.main w =
    (inl (FileNotFoundError "Utils_Main.gs"), w).
Proof.
  intros Hc. cbn [run_times]. unfold mbind, M_bind.
  unfold RestoreFacade.main, RestoreFacade.restore_facade, mbind, M_bind, read_file.
  by rewrite Hc.
Qed.

Lemma restorer_missing_file_witness :
  run_times 2 RestoreFacade.main empty_world =
    (inl (FileNotFoundError "Utils_Main.gs"), empty_world).
Proof. apply (restorer_missing_file 1 empty_world). reflexivity. Defined.

(** ** The Facade Remover *)

Lemma facade_not_listed : "Utils_Main.gs" ∉ RemoveFacade.files_to_update.
Proof. apply (bool_decide_unpack _). vm_compute. reflexivity. Qed.

Lemma filter_on_disk_ext (w w' : world) (l : list string) :
  (forall name, name ∈ l -> on_disk w' name <-> on_disk w name) ->
  filter (on_disk w') l = filter (on_disk w) l.
Proof.
  induction l as [|x l IH]; intros H; [done|].
  rewrite !filter_cons, IH.
  - pose proof (H x ltac:(apply elem_of_cons; by left)) as Hx.
    repeat case_decide; tauto.
  - intros name Hin. apply H. apply elem_of_cons. by right.
Qed.

Lemma remove_facade_main_spec (w : world) :
  exists w' : world,
    RemoveFacade.main w =
      match files w !! "Utils_Main.gs" with
      | Some _ => (inr tt, World (delete "Utils_Main.gs" (files w')) (stdout w'))
      | None => (inl (FileNotFoundError "Utils_Main.gs"), w')
      end /\
    stdout w' =
      stdout w ++
      (String.append "Updated: " <$>
         filter (on_disk w) RemoveFacade.files_to_update) /\
    forall name : string,
      files w' !! name =
        if decide (name ∈ RemoveFacade.files_to_update)
        then Str.replace "Utils_Main" "" <$> files w !! name
        else files w !! name.
Proof.
  destruct (for_each_loop_body RemoveFacade.update_file_content _
              remove_update_file_content_spec _ files_to_update_NoDup w)
    as (w' & E & Hout & Hfiles).
  exists w'. split; [|by split].
  unfold RemoveFacade.main, mbind, M_bind.
  change (RemoveFacade.update_each w)
    with (for_each RemoveFacade.files_to_update
            (loop_body RemoveFacade.update_file_content) w).
  rewrite E. unfold os_remove.
  rewrite (Hfiles "Utils_Main.gs"), decide_False by apply facade_not_listed.
  by destruct (files w !! "Utils_Main.gs").
Qed.

Lemma remover_main_run_lookup (w : world) :
  is_Some (files w !! "Utils_Main.gs") ->
  exists w1 : world,
    RemoveFacade.main w = (inr tt, w1) /\
    stdout w1 =
      stdout w ++
      (String.append "Updated: " <$>
         filter (on_disk w) RemoveFacade.files_to_update) /\
    forall name : string,
      files w1 !! name =
        if decide (name = "Utils_Main.gs") then None
        else if decide (name ∈ RemoveFacade.files_to_update)
        then Str.replace "Utils_Main" "" <$> files w !! name
        else files w !! name.
Proof.
  intros [c Hc]. destruct (remove_facade_main_spec w) as (w' & E & Hout & Hfiles).
  rewrite Hc in E. eexists. split; [exact E|]. split; [exact Hout|].
  intros name. cbn [files]. destruct (decide (name = "Utils_Main.gs")) as [->|Hne].
  - apply lookup_delete_eq.
  - rewrite lookup_delete_ne by done. apply Hfiles.
Qed.


(** X8. Without [Utils_Main.gs] the Facade Remover still rewrites every
    listed file on disk and prints its line, and only then raises
    [FileNotFoundError]: the exception leaves the rewritten files and the
    printed lines behind. *)
Theorem remover_facade_missing (w : world) :
  files w !! "Utils_Main.gs" = None ->
  exists w1 : world,
    RemoveFacade.main w = (inl (FileNotFoundError "Utils_Main.gs"), w1) /\
    stdout w1 =
      stdout w ++
      (String.append "Updated: " <$>
         filter (on_disk w) RemoveFacade.files_to_update) /\
    forall name : string,
      files w1 !! name =
        if decide (name ∈ RemoveFacade.files_to_update)
        then Str.replace "Utils_Main" "" <$> files w !! name
        else files w !! name.
Proof.
  intros Hc. destruct (remove_facade_main_spec w) as (w' & E & Hout & Hfiles).
  rewrite Hc in E. by exists w'.
Qed.

(** X9. The Facade Remover cannot be run twice: after a run that succeeded
    the facade file is gone, so the second run prints the same lines again and
    then raises [FileNotFoundError]. *)
Theorem remover_rerun_fails (w : world) :
  is_Some (files w !! "Utils_Main.gs") ->
  exists w1 w2 : world,
    RemoveFacade.main w = (inr tt, w1) /\
    RemoveFacade.main w1 = (inl (FileNotFoundError "Utils_Main.gs"), w2) /\
    stdout w2 =
      stdout w ++
      (String.append "Updated: " <$>
         filter (on_disk w) RemoveFacade.files_to_update) ++
      (String.append "Updated: " <$>
         filter (on_disk w) RemoveFacade.files_to_update).
Proof.
  intros Hc. destruct (remover_main_run_lookup w Hc) as (w1 & E1 & Hout1 & Hfiles1).
  assert (Hgone : files w1 !! "Utils_Main.gs" = None).
  { rewrite Hfiles1. by rewrite decide_True. }
  destruct (remove_facade_main_spec w1) as (w2 & E2 & Hout2 & _).
  rewrite Hgone in E2. exists w1, w2. split; [exact E1|]. split; [exact E2|].
  rewrite Hout2, Hout1, <- app_assoc. do 3 f_equal.
  apply filter_on_disk_ext. intros name Hin. unfold on_disk.
  rewrite Hfiles1. rewrite decide_False.
  - rewrite decide_True by done. by rewrite fmap_is_Some.
  - intros ->. by apply facade_not_listed.
Qed.

(** ** [split], [replace] and joining *)

Lemma concat_cons (sep x : string) (l : list string) :
  l <> [] -> String.concat sep (x :: l) = x +:+ sep +:+ String.concat sep l.
Proof. by destruct l. Qed.

Lemma concat_cons_char (sep seg : string) (segs : list string) (c : ascii) :
  String.concat sep (String c seg :: segs) =
  String c (String.concat sep (seg :: segs)).
Proof. by destruct segs. Qed.

(** Joining the parts of a split with the separator gives the text back,
    from wherever the scan stands. *)
Lemma concat_split_go (sep : string) :
  sep <> "" ->
  forall (s : string) (skip : nat),
    String.concat sep (Str.split_go sep skip s) = Str.drop skip s.
Proof.
  intros Hsep. induction s as [|c s IH]; intros skip.
  - by destruct skip.
  - destruct skip as [|skip]; [|apply IH].
    cbn [Str.split_go Str.drop].
    destruct (Str.startswith (String c s) sep) eqn:E.
    + rewrite concat_cons by apply split_go_nonempty.
      rewrite IH. simpl String.append.
      rewrite (startswith_inv _ _ E) at 1.
      destruct sep as [|a sep]; [done|]. simpl. by rewrite Nat.sub_0_r.
    + pose proof (split_go_nonempty sep 0 s) as Hne. specialize (IH 0).
      destruct (Str.split_go sep 0 s) as [|seg segs]; [done|].
      rewrite concat_cons_char, IH. by destruct s.
Qed.

(** Replacing is splitting at [old] and joining with [new]. *)
Lemma replace_go_concat (old new : string) :
  forall (s : string) (skip : nat),
    Str.replace_go old new skip s = String.concat new (Str.split_go old skip s).
Proof.
  induction s as [|c s IH]; intros skip.
  - by destruct skip.
  - destruct skip as [|skip]; [|apply IH].
    cbn [Str.replace_go Str.split_go].
    destruct (Str.startswith (String c s) old) eqn:E.
    + rewrite concat_cons by apply split_go_nonempty. by rewrite IH.
    + pose proof (split_go_nonempty old 0 s) as Hne. specialize (IH 0).
      destruct (Str.split_go old 0 s) as [|seg segs]; [done|].
      by rewrite concat_cons_char, IH.
Qed.

(** X10. Splitting loses nothing: the parts of a text split at a separator,
    joined with that separator, are the text again; and the first part, the
    one the Combiner and the Facade Restorer keep, is the text before the
    first occurrence of the separator (all of the text when there is none). *)
Theorem split_join_round_trip (sep s : string) (parts : list string) :
  Str.split sep s = Some parts ->
  String.concat sep parts = s /\
  parts !! 0 =
    Some (match Str.find sep s with Some i => Str.take i s | None => s end).
Proof.
  unfold Str.split. destruct sep as [|a sep']; [done|].
  intros [= <-]. split.
  - by rewrite concat_split_go.
  - by apply split_go_head.
Qed.

Lemma split_join_round_trip_witness :
  String.concat "// Export all functions directly"
    ["HEADER" +:+ String nl ""; String nl "OLD_BODY"] =
  "HEADER" +:+ String nl "// Export all functions directly" +:+ String nl "OLD_BODY".
Proof.
  apply (split_join_round_trip "// Export all functions directly"
           ("HEADER" +:+ String nl "// Export all functions directly"
            +:+ String nl "OLD_BODY")).
  reflexivity.
Defined.

(** X11. The token removal of the Facade Remover is a split at the token
    followed by a join: the new content is the parts of the old content
    between the occurrences of [Utils_Main], put together, and joining the
    same parts with the token gives the old content back. *)
Theorem remover_is_split_join (c : string) :
  exists parts : list string,
    Str.split "Utils_Main" c = Some parts /\
    Str.replace "Utils_Main" "" c = String.concat "" parts /\
    String.concat "Utils_Main" parts = c.
Proof.
  eexists. split; [reflexivity|]. split.
  - apply replace_go_concat.
  - by apply concat_split_go.
Qed.

Lemma chars_length (s : string) : length (chars s) = String.length s.
Proof. induction s as [|c s IH]; simpl; [done | by rewrite IH]. Qed.

Lemma chars_app (a b : string) : chars (a +:+ b) = chars a ++ chars b.
Proof. induction a as [|c a IH]; simpl; [done | by rewrite IH]. Qed.

Lemma replace_go_sublist (old : string) :
  forall (s : string) (skip : nat),
    chars (Str.replace_go old "" skip s) `sublist_of` chars s.
Proof.
  induction s as [|c s IH]; intros skip; [by destruct skip|].
  destruct skip as [|skip].
  - cbn [Str.replace_go]. destruct (Str.startswith (String c s) old).
    + apply sublist_cons, IH.
    + apply sublist_skip, IH.
  - apply sublist_cons, IH.
Qed.

Lemma concat_length (sep : string) (l : list string) :
  String.length (String.concat sep l) =
  foldr (fun x n => String.length x + n) 0 l + String.length sep * pred (length l).
Proof.
  induction l as [|x l IH]; [simpl; lia|].
  destruct l as [|y l]; [simpl; lia|].
  rewrite concat_cons by done. rewrite !append_length, IH.
  cbn [foldr length pred]. lia.
Qed.

(** X12. The Facade Remover only deletes: the characters of the new content
    are characters of the old content, in the same order, and the content gets
    shorter by the ten characters of the token for every occurrence the scan
    found (one less than the number of parts of the split). *)
Theorem remover_only_deletes (c : string) :
  chars (Str.replace "Utils_Main" "" c) `sublist_of` chars c /\
  exists parts : list string,
    Str.split "Utils_Main" c = Some parts /\
    String.length c =
      String.length (Str.replace "Utils_Main" "" c) + 10 * (length parts - 1).
Proof.
  split; [apply replace_go_sublist|].
  eexists. split; [reflexivity|].
  pose proof (concat_split_go "Utils_Main" ltac:(done) c 0) as Hjoin.
  pose proof (replace_go_concat "Utils_Main" "" c 0) as Hrep.
  cbn [Str.drop] in Hjoin.
  apply (f_equal String.length) in Hjoin, Hrep.
  rewrite concat_length in Hjoin, Hrep.
  change (Str.replace "Utils_Main" "" c)
    with (Str.replace_go "Utils_Main" "" 0 c).
  change (String.length "Utils_Main") with 10 in Hjoin.
  change (String.length "") with 0 in Hrep. lia.
Qed.

(** ** Runs of word characters *)

Lemma take_drop_while (p : ascii -> bool) (s : string) :
  take_while p s +:+ drop_while p s = s.
Proof.
  induction s as [|c s IH]; [done|]. simpl.
  destruct (p c); [simpl; by rewrite IH | done].
Qed.

Lemma all_take_while (p : ascii -> bool) (s : string) :
  all p (take_while p s) = true.
Proof.
  induction s as [|c s IH]; [done|]. simpl.
  destruct (p c) eqn:E; [simpl; by rewrite E, IH | done].
Qed.

Lemma drop_while_head (p : ascii -> bool) (s : string) :
  match drop_while p s with
  | EmptyString => True
  | String c _ => p c = false
  end.
Proof.
  induction s as [|c s IH]; [done|]. simpl. by destruct (p c) eqn:E.
Qed.

Lemma drop_while_length (p : ascii -> bool) (s : string) :
  String.length (drop_while p s) <= String.length s.
Proof.
  induction s as [|c s IH]; [done|]. simpl. destruct (p c); simpl; lia.
Qed.

(** A text is free of word characters, or it starts with such text, then a
    non-empty run of word characters, then a rest that does not go on with a
    word character. *)
Lemma run_cases (s : string) :
  nonword_only s = true \/
  exists pre w post : string,
    s = pre +:+ w +:+ post /\
    nonword_only pre = true /\ word_only w = true /\ w <> "" /\
    Re.is_word_at (Re.next_char post) = false /\
    String.length post < String.length s.
Proof.
  set (notw := fun c => negb (Re.is_word c)).
  pose proof (take_drop_while notw s) as Hs.
  pose proof (all_take_while notw s) as Hpre.
  pose proof (drop_while_head notw s) as Hhead.
  pose proof (drop_while_length notw s) as Hlen.
  destruct (drop_while notw s) as [|c r] eqn:Hr.
  - left. rewrite <- Hs, append_nil_r. exact Hpre.
  - right. unfold notw in Hhead. apply negb_false_iff in Hhead.
    pose proof (take_drop_while Re.is_word r) as Hr2.
    pose proof (all_take_while Re.is_word r) as Hw.
    pose proof (drop_while_head Re.is_word r) as Hpost.
    pose proof (drop_while_length Re.is_word r) as Hlen2.
    exists (take_while notw s),
           (String c (take_while Re.is_word r)), (drop_while Re.is_word r).
    split; [|split; [exact Hpre|split; [|split; [done|split]]]].
    + rewrite <- Hs at 1. f_equal. simpl. by rewrite Hr2.
    + unfold word_only. cbn [all]. by rewrite Hhead, Hw.
    + destruct (drop_while Re.is_word r); [done|]. simpl. exact Hpost.
    + simpl in Hlen. lia.
Qed.

Lemma run_induction (P : string -> Prop) :
  (forall pre : string, nonword_only pre = true -> P pre) ->
  (forall pre w post : string,
     nonword_only pre = true -> word_only w = true -> w <> "" ->
     Re.is_word_at (Re.next_char post) = false ->
     P post -> P (pre +:+ w +:+ post)) ->
  forall s : string, P s.
Proof.
  intros Hbase Hstep s.
  remember (String.length s) as n eqn:Hn. revert s Hn.
  induction n as [n IH] using lt_wf_ind. intros s ->.
  destruct (run_cases s) as [Hs|(pre & w & post & -> & Hpre & Hw & Hne & Hpost & Hlt)].
  - by apply Hbase.
  - apply Hstep; try done. by apply (IH (String.length post)).
Qed.

(** Two words that continue into the same text and both stop where the word
    characters stop are the same word. *)
Lemma word_run_unique (w name : string) :
  forall post rest : string,
    w +:+ post = name +:+ rest ->
    word_only w = true -> word_only name = true ->
    Re.is_word_at (Re.next_char post) = false ->
    Re.is_word_at (Re.next_char rest) = false ->
    w = name.
Proof.
  revert name. induction w as [|c w IH]; intros [|d name] post rest E Hw Hn Hp Hr.
  - done.
  - simpl in E. subst post. unfold word_only in Hn. cbn [all] in Hn.
    apply andb_true_iff in Hn as [Hd _]. simpl in Hp. congruence.
  - simpl in E. subst rest. unfold word_only in Hw. cbn [all] in Hw.
    apply andb_true_iff in Hw as [Hc _]. simpl in Hr. congruence.
  - injection E as -> E. unfold word_only in Hw, Hn. cbn [all] in Hw, Hn.
    apply andb_true_iff in Hw as [_ Hw]. apply andb_true_iff in Hn as [_ Hn].
    f_equal. by apply (IH name post rest).
Qed.

Lemma existsb_eqb_In (w : string) (names : list string) :
  existsb (String.eqb w) names = true <-> In w names.
Proof.
  rewrite existsb_exists. split.
  - intros (n & Hin & ->%String.eqb_eq). done.
  - intros Hin. exists w. by rewrite String.eqb_refl.
Qed.

(** The passes that prefix names: what follows holds for a pattern that
    matches exactly the names of a list where they stand alone, with the name
    as group 1. *)
Section NamePass.
Variable pattern : Re.regex.
Variable names : list string.
Hypothesis names_word : forall name : string,
  In name names -> name <> "" /\ word_only name = true.
Hypothesis match_inv :
  forall (b : bool) (prev : option ascii) (s : string) (m : Re.match_object),
    Re.match_here pattern b prev s = Some m ->
    exists name rest : string,
      In name names /\ s = name +:+ rest /\
      Re.is_word_at prev = false /\ Re.is_word_at (Re.next_char rest) = false.
Hypothesis match_name :
  forall (b : bool) (prev : option ascii) (name rest : string),
    In name names ->
    Re.is_word_at prev = false ->
    Re.is_word_at (Re.next_char rest) = false ->
    Re.match_here pattern b prev (name +:+ rest) =
      Some (Re.MatchObject name [(1, name)] rest).

Lemma np_no_match_nonword (b : bool) (prev : option ascii) (s : string) :
  Re.is_word_at (Re.next_char s) = false ->
  Re.match_here pattern b prev s = None.
Proof.
  intros Hs. destruct (Re.match_here _ _ _ _) as [m|] eqn:E; [|done].
  apply match_inv in E as (name & rest & Hin & -> & _).
  destruct (names_word name Hin) as [Hne Hw].
  destruct name as [|c t]; [done|].
  unfold word_only in Hw. cbn [all] in Hw. apply andb_true_iff in Hw as [Hc _].
  simpl in Hs. congruence.
Qed.

Lemma np_no_match_after_word (b : bool) (prev : option ascii) (s : string) :
  Re.is_word_at prev = true ->
  Re.match_here pattern b prev s = None.
Proof.
  intros Hp. destruct (Re.match_here _ _ _ _) as [m|] eqn:E; [|done].
  apply match_inv in E as (name & rest & _ & _ & Hprev & _). congruence.
Qed.

Lemma np_sub_end (repl : Re.match_object -> string) (prev : option ascii) :
  Re.sub_go pattern repl 0 prev "" = "".
Proof. cbn [Re.sub_go]. by rewrite np_no_match_nonword. Qed.

Lemma np_sub_nonword (repl : Re.match_object -> string) (pre s : string) :
  nonword_only pre = true ->
  forall prev : option ascii,
    Re.sub_go pattern repl 0 prev (pre +:+ s) =
    pre +:+ Re.sub_go pattern repl 0 (last_char prev pre) s.
Proof.
  induction pre as [|c pre IH]; intros Hpre prev; [done|].
  unfold nonword_only in Hpre. cbn [all] in Hpre.
  apply andb_true_iff in Hpre as [Hc Hpre].
  change (String c pre +:+ s) with (String c (pre +:+ s)).
  rewrite sub_go_no_match.
  - by rewrite IH.
  - apply np_no_match_nonword. simpl. by destruct (Re.is_word c).
Qed.

Lemma np_sub_word (repl : Re.match_object -> string) (w s : string) :
  word_only w = true ->
  forall prev : option ascii,
    Re.is_word_at prev = true ->
    Re.sub_go pattern repl 0 prev (w +:+ s) =
    w +:+ Re.sub_go pattern repl 0 (last_char prev w) s.
Proof.
  induction w as [|c w IH]; intros Hw prev Hp; [done|].
  unfold word_only in Hw. cbn [all] in Hw.
  apply andb_true_iff in Hw as [Hc Hw].
  change (String c w +:+ s) with (String c (w +:+ s)).
  rewrite sub_go_no_match by by apply np_no_match_after_word.
  by rewrite IH.
Qed.

Lemma np_sub_start_irrel (repl : Re.match_object -> string)
    (prev prev' : option ascii) (s : string) :
  Re.is_word_at (Re.next_char s) = false ->
  Re.sub_go pattern repl 0 prev s = Re.sub_go pattern repl 0 prev' s.
Proof.
  intros Hs. destruct s as [|c t].
  - by rewrite !np_sub_end.
  - by rewrite !sub_go_no_match by by apply np_no_match_nonword.
Qed.

(** One run of word characters, where the scan reaches it after a character
    that is not a word character. *)
Lemma np_sub_run (w post : string) (prev : option ascii) :
  Re.is_word_at prev = false ->
  word_only w = true -> w <> "" ->
  Re.is_word_at (Re.next_char post) = false ->
  Re.sub_go pattern (fun m => "Utils_" +:+ Re.fmt (Re.group m 1)) 0 prev
    (w +:+ post) =
  prefix_if names w +:+
  Re.sub_go pattern (fun m => "Utils_" +:+ Re.fmt (Re.group m 1)) 0
    (last_char prev w) post.
Proof.
  intros Hp Hw Hne Hpost. set (repl := fun m : Re.match_object => _).
  destruct w as [|c t]; [done|].
  change (String c t +:+ post) with (String c (t +:+ post)).
  unfold prefix_if. destruct (existsb (String.eqb (String c t)) names) eqn:E.
  - apply existsb_eqb_In in E.
    pose proof (match_name false prev (String c t) post E Hp Hpost) as Hm.
    change (String c t +:+ post) with (String c (t +:+ post)) in Hm.
    rewrite (sub_go_match _ repl _ _ _ _ Hm) by done.
    cbn [Re.matched]. replace (String.length (String c t) - 1)
      with (String.length t) by (simpl; lia).
    rewrite sub_go_skip. unfold repl at 1.
    cbn [Re.group Re.lookup_group Re.groups Re.fmt Nat.eqb last_char].
    by rewrite append_assoc.
  - rewrite sub_go_no_match.
    + unfold word_only in Hw. cbn [all] in Hw.
      apply andb_true_iff in Hw as [Hc Hw].
      by rewrite np_sub_word.
    + destruct (Re.match_here _ _ _ _) as [m|] eqn:Em; [|done].
      apply match_inv in Em as (name & rest & Hin & Hs & _ & Hrest).
      destruct (names_word name Hin) as [_ Hnw].
      change (String c (t +:+ post)) with (String c t +:+ post) in Hs.
      rewrite (word_run_unique _ _ _ _ Hs Hw Hnw Hpost Hrest) in E.
      apply existsb_eqb_In in Hin. congruence.
Qed.

Lemma np_acts_on_runs :
  acts_on_runs (Re.sub pattern (fun m => "Utils_" +:+ Re.fmt (Re.group m 1)))
               (prefix_if names).
Proof.
  unfold Re.sub. split.
  - intros pre Hpre. rewrite <- (append_nil_r pre) at 1.
    rewrite np_sub_nonword by done. by rewrite np_sub_end, append_nil_r.
  - intros pre w post Hpre Hw Hne Hpost.
    rewrite np_sub_nonword by done. f_equal.
    rewrite np_sub_run; [|by apply last_char_nonword|done..].
    f_equal. by apply np_sub_start_irrel.
Qed.
End NamePass.

(** ** The two passes over names *)

Lemma variable_names_word (name : string) :
  In name VARIABLE_NAMES -> name <> "" /\ word_only name = true.
Proof. simpl. intros [<-|[<-|[<-|[<-|[]]]]]; by split. Qed.

Lemma section_names_word (name : string) :
  In name SECTION_NAMES -> name <> "" /\ word_only name = true.
Proof. simpl. intros [<-|[<-|[<-|[<-|[<-|[]]]]]]; by split. Qed.

Lemma pass2_acts_on_runs :
  acts_on_runs UpdateUtils.pass2 (prefix_if VARIABLE_NAMES).
Proof.
  apply (np_acts_on_runs UpdateUtils.VARIABLES VARIABLE_NAMES).
  - apply variable_names_word.
  - apply match_variable_inv.
  - apply match_variable_here.
Qed.

(** A match of the section pattern is one of the five names, with no word
    character before it and none after it. *)
Lemma match_section_inv (b : bool) (prev : option ascii) (s : string)
    (m : Re.match_object) :
  Re.match_here UpdateUtils.SECTIONS b prev s = Some m ->
  exists name rest : string,
    In name SECTION_NAMES /\ s = name +:+ rest /\
    Re.is_word_at prev = false /\ Re.is_word_at (Re.next_char rest) = false.
Proof.
  unfold Re.match_here, UpdateUtils.SECTIONS.
  rewrite run_Group, run_Cat. intros [Hb H]%run_Boundary_inv.
  rewrite run_Cat in H.
  assert (Hstart : forall name rest, s = name +:+ rest ->
            Re.is_word_at (Re.next_char (name +:+ rest)) = true ->
            Re.is_word_at prev = false).
  { intros name rest -> Hw. rewrite Hw in Hb. by destruct (Re.is_word_at prev). }
  assert (Hend : forall rest : string,
            xorb true (Re.is_word_at (Re.next_char rest)) = true ->
            Re.is_word_at (Re.next_char rest) = false).
  { intros rest Hx. by destruct (Re.is_word_at (Re.next_char rest)). }
  apply run_Alt_inv in H as [H|H]; [|apply run_Alt_inv in H as [H|H];
    [|apply run_Alt_inv in H as [H|H]; [|apply run_Alt_inv in H as [H|H]]]];
    apply run_lit_inv in H as (rest & Hs & H);
    apply run_Boundary_inv in H as [H _];
    apply (Hend rest) in H.
  - exists "FundamentalMetrics", rest. repeat split; [simpl; tauto|done| |done].
    by apply (Hstart "FundamentalMetrics" rest).
  - exists "MacroeconomicFactors", rest. repeat split; [simpl; tauto|done| |done].
    by apply (Hstart "MacroeconomicFactors" rest).
  - exists "MarketIndicators", rest. repeat split; [simpl; tauto|done| |done].
    by apply (Hstart "MarketIndicators" rest).
  - exists "MarketSentiment", rest. repeat split; [simpl; tauto|done| |done].
    by apply (Hstart "MarketSentiment" rest).
  - exists "GeopoliticalRisks", rest. repeat split; [simpl; tauto|done| |done].
    by apply (Hstart "GeopoliticalRisks" rest).
Qed.

(** The section pattern matches a name that has no word character on either
    side. *)
Lemma match_section_here (b : bool) (prev : option ascii) (name rest : string) :
  In name SECTION_NAMES ->
  Re.is_word_at prev = false ->
  Re.is_word_at (Re.next_char rest) = false ->
  Re.match_here UpdateUtils.SECTIONS b prev (name +:+ rest) =
    Some (Re.MatchObject name [(1, name)] rest).
Proof.
  intros Hin Hprev Hrest. unfold Re.match_here.
  set (k := fun (_ : option ascii) s' caps => _).
  assert (Hk : forall p : option ascii,
            k p rest [(1, name)] = Some (Re.MatchObject name [(1, name)] rest)).
  { intros p. unfold k. rewrite take_length_diff.
    replace (String.length rest =? String.length (name +:+ rest)) with false;
      [by rewrite andb_false_r|].
    symmetry. apply Nat.eqb_neq. rewrite append_length.
    destruct (section_names_word name Hin) as [Hne _].
    destruct name; [done|]. simpl. lia. }
  clearbody k. unfold UpdateUtils.SECTIONS. rewrite run_Group, run_Cat.
  rewrite run_Boundary.
  2:{ rewrite Hprev. simpl in Hin.
      destruct Hin as [<-|[<-|[<-|[<-|[<-|[]]]]]]; reflexivity. }
  rewrite run_Cat.
  assert (Htail : forall p : option ascii,
            Re.is_word_at p = true ->
            Re.run Re.Boundary p rest []
              (fun prev' s' caps' =>
                 k prev' s'
                   ((1, Str.take (String.length (name +:+ rest) - String.length s')
                          (name +:+ rest)) :: caps')) =
            k p rest [(1, name)]).
  { intros p Hp. rewrite run_Boundary.
    - by rewrite take_length_diff.
    - by rewrite Hp, Hrest. }
  simpl in Hin. destruct Hin as [<-|[<-|[<-|[<-|[<-|[]]]]]].
  - rewrite run_Alt. rewrite (run_lit "FundamentalMetrics" prev rest).
    rewrite Htail by reflexivity. cbn [last_char]. by rewrite Hk.
  - do 2 (rewrite run_Alt; skip_alternative).
    rewrite (run_lit "MacroeconomicFactors" prev rest).
    rewrite Htail by reflexivity. cbn [last_char]. by rewrite Hk.
  - do 3 (rewrite run_Alt; skip_alternative).
    rewrite (run_lit "MarketIndicators" prev rest).
    rewrite Htail by reflexivity. cbn [last_char]. by rewrite Hk.
  - do 4 (rewrite run_Alt; skip_alternative).
    rewrite (run_lit "MarketSentiment" prev rest).
    rewrite Htail by reflexivity. cbn [last_char]. by rewrite Hk.
  - do 4 (rewrite run_Alt; skip_alternative).
    rewrite (run_lit "GeopoliticalRisks" prev rest).
    rewrite Htail by reflexivity. cbn [last_char]. by rewrite Hk.
Qed.

Lemma pass3_acts_on_runs :
  acts_on_runs UpdateUtils.pass3 (prefix_if SECTION_NAMES).
Proof.
  apply (np_acts_on_runs UpdateUtils.SECTIONS SECTION_NAMES).
  - apply section_names_word.
  - apply match_section_inv.
  - apply match_section_here.
Qed.

Lemma aor_head (pass f : string -> string) (s : string) :
  acts_on_runs pass f ->
  Re.is_word_at (Re.next_char s) = false ->
  Re.is_word_at (Re.next_char (pass s)) = false.
Proof.
  intros [Hnon Hrun] Hs.
  destruct (run_cases s) as [Hall|(pre & w & post & -> & Hpre & Hw & Hne & Hpost & _)].
  - by rewrite Hnon.
  - rewrite Hrun by done. destruct pre as [|c pre]; [|exact Hs].
    destruct w as [|c w]; [done|]. unfold word_only in Hw. cbn [all] in Hw.
    apply andb_true_iff in Hw as [Hc _]. simpl in Hs. congruence.
Qed.

(** Two passes that act on runs and agree on every run agree on every
    text. *)
Lemma aor_equal (pass1 pass2 f g : string -> string) :
  acts_on_runs pass1 f -> acts_on_runs pass2 g ->
  (forall w : string, word_only w = true -> w <> "" -> f w = g w) ->
  forall s : string, pass1 s = pass2 s.
Proof.
  intros [Hnon1 Hrun1] [Hnon2 Hrun2] Hfg.
  apply run_induction.
  - intros pre Hpre. by rewrite Hnon1, Hnon2.
  - intros pre w post Hpre Hw Hne Hpost IH.
    by rewrite Hrun1, Hrun2, Hfg, IH.
Qed.

(** One pass after another acts on runs too, when the first keeps a run a
    run. *)
Lemma aor_compose (pass1 pass2 f g : string -> string) :
  acts_on_runs pass1 f -> acts_on_runs pass2 g ->
  (forall w : string, word_only w = true -> w <> "" ->
                      word_only (f w) = true /\ f w <> "") ->
  acts_on_runs (fun s => pass2 (pass1 s)) (fun w => g (f w)).
Proof.
  intros H1 H2 Hf. pose proof H1 as [Hnon1 Hrun1]. pose proof H2 as [Hnon2 Hrun2].
  split.
  - intros pre Hpre. by rewrite Hnon1, Hnon2.
  - intros pre w post Hpre Hw Hne Hpost.
    destruct (Hf w Hw Hne) as [Hfw Hfne].
    rewrite Hrun1 by done. rewrite Hrun2; [done..|].
    by apply (aor_head pass1 f).
Qed.

Lemma prefix_if_word (names : list string) (w : string) :
  word_only w = true -> w <> "" ->
  word_only (prefix_if names w) = true /\ prefix_if names w <> "".
Proof.
  intros Hw Hne. unfold prefix_if. destruct (existsb _ names); [|done].
  split; [|done]. unfold word_only. rewrite all_app. fold (word_only w).
  by rewrite Hw.
Qed.

(** A text that starts with [Utils_] is no name of a list whose names do not
    start that way. *)
Lemma prefix_if_prefixed (names : list string) (w : string) :
  forallb (fun n => negb (Str.startswith n "Utils_")) names = true ->
  prefix_if names ("Utils_" +:+ w) = "Utils_" +:+ w.
Proof.
  intros Hnames. unfold prefix_if.
  destruct (existsb _ names) eqn:E; [|done].
  apply existsb_eqb_In in E.
  rewrite forallb_forall in Hnames. apply Hnames in E.
  by rewrite startswith_app in E.
Qed.

Lemma prefix_if_twice (names : list string) (w : string) :
  forallb (fun n => negb (Str.startswith n "Utils_")) names = true ->
  prefix_if names (prefix_if names w) = prefix_if names w.
Proof.
  intros Hnames. unfold prefix_if at 2 3.
  destruct (existsb (String.eqb w) names) eqn:E.
  - by apply prefix_if_prefixed.
  - unfold prefix_if. by rewrite E.
Qed.

Lemma prefix_if_comm (names1 names2 : list string) (w : string) :
  forallb (fun n => negb (Str.startswith n "Utils_")) names1 = true ->
  forallb (fun n => negb (Str.startswith n "Utils_")) names2 = true ->
  prefix_if names1 (prefix_if names2 w) = prefix_if names2 (prefix_if names1 w).
Proof.
  intros H1 H2. unfold prefix_if at 2 4.
  destruct (existsb (String.eqb w) names1) eqn:E1,
           (existsb (String.eqb w) names2) eqn:E2.
  - by rewrite !prefix_if_prefixed.
  - rewrite prefix_if_prefixed by done. unfold prefix_if. by rewrite E1.
  - rewrite prefix_if_prefixed by done. unfold prefix_if. by rewrite E2.
  - unfold prefix_if. by rewrite E1, E2.
Qed.

Lemma pass_idempotent (pass : string -> string) (names : list string) :
  acts_on_runs pass (prefix_if names) ->
  forallb (fun n => negb (Str.startswith n "Utils_")) names = true ->
  forall s : string, pass (pass s) = pass s.
Proof.
  intros Hpass Hnames.
  apply (aor_equal (fun s => pass (pass s)) pass
           (fun w => prefix_if names (prefix_if names w)) (prefix_if names)).
  - apply aor_compose; [done..|]. intros w. apply prefix_if_word.
  - done.
  - intros w _ _. by apply prefix_if_twice.
Qed.

Lemma pass2_pass3_comm (s : string) :
  UpdateUtils.pass2 (UpdateUtils.pass3 s) = UpdateUtils.pass3 (UpdateUtils.pass2 s).
Proof.
  revert s.
  apply (aor_equal (fun s => UpdateUtils.pass2 (UpdateUtils.pass3 s))
           (fun s => UpdateUtils.pass3 (UpdateUtils.pass2 s))
           (fun w => prefix_if VARIABLE_NAMES (prefix_if SECTION_NAMES w))
           (fun w => prefix_if SECTION_NAMES (prefix_if VARIABLE_NAMES w))).
  - apply aor_compose; [apply pass3_acts_on_runs | apply pass2_acts_on_runs|].
    intros w. apply prefix_if_word.
  - apply aor_compose; [apply pass2_acts_on_runs | apply pass3_acts_on_runs|].
    intros w. apply prefix_if_word.
  - intros w _ _. by apply prefix_if_comm.
Qed.

(** X13. Pass 2 works on each maximal run of word characters on its own,
    in any context: text without word characters is kept, and a run between
    such text and the next character that is not a word character becomes
    [Utils_] and the run when it is one of the four names, and stays as it is
    otherwise, while the scan goes on after it. *)
Theorem pass2_run_by_run :
  (forall pre : string,
     nonword_only pre = true -> UpdateUtils.pass2 pre = pre) /\
  (forall pre w post : string,
     nonword_only pre = true ->
     word_only w = true -> w <> "" ->
     Re.is_word_at (Re.next_char post) = false ->
     UpdateUtils.pass2 (pre +:+ w +:+ post) =
       pre +:+ (if is_variable_name w then "Utils_" +:+ w else w)
           +:+ UpdateUtils.pass2 post).
Proof. exact pass2_acts_on_runs. Qed.

Lemma pass2_run_by_run_witness :
  UpdateUtils.pass2 ("  (" +:+ "MyCoreUtilsExtra" +:+ ".f(CoreUtils)") =
    "  (" +:+ "MyCoreUtilsExtra" +:+ UpdateUtils.pass2 ".f(CoreUtils)".
Proof.
  apply (proj2 pass2_run_by_run "  (" "MyCoreUtilsExtra" ".f(CoreUtils)");
    reflexivity || done.
Defined.

(** X14. Pass 3 works on each maximal run of word characters on its own,
    in any context: a run becomes [Utils_] and the run when it is one of the
    five section names, and stays as it is otherwise; text without word
    characters is kept. *)
Theorem pass3_run_by_run :
  (forall pre : string,
     nonword_only pre = true -> UpdateUtils.pass3 pre = pre) /\
  (forall pre w post : string,
     nonword_only pre = true ->
     word_only w = true -> w <> "" ->
     Re.is_word_at (Re.next_char post) = false ->
     UpdateUtils.pass3 (pre +:+ w +:+ post) =
       pre +:+ prefix_if SECTION_NAMES w +:+ UpdateUtils.pass3 post).
Proof. exact pass3_acts_on_runs. Qed.

Lemma pass3_run_by_run_witness :
  UpdateUtils.pass3 ("(" +:+ "MarketSentiment" +:+ ".get(MarketSentiments)") =
    "(" +:+ "Utils_MarketSentiment" +:+ UpdateUtils.pass3 ".get(MarketSentiments)".
Proof.
  apply (proj2 pass3_run_by_run "(" "MarketSentiment" ".get(MarketSentiments)");
    reflexivity || done.
Defined.

(** X15. Pass 2 and Pass 3 are idempotent on every content: a name that got
    its prefix is part of a longer run of word characters and is not matched
    again. *)
Theorem name_passes_idempotent (c : string) :
  UpdateUtils.pass2 (UpdateUtils.pass2 c) = UpdateUtils.pass2 c /\
  UpdateUtils.pass3 (UpdateUtils.pass3 c) = UpdateUtils.pass3 c.
Proof.
  split.
  - by apply (pass_idempotent UpdateUtils.pass2 VARIABLE_NAMES pass2_acts_on_runs).
  - by apply (pass_idempotent UpdateUtils.pass3 SECTION_NAMES pass3_acts_on_runs).
Qed.

(** X16. Pass 2 and Pass 3 commute: on every content the order of the two
    passes makes no difference. *)
Theorem name_passes_commute (c : string) :
  UpdateUtils.pass3 (UpdateUtils.pass2 c) = UpdateUtils.pass2 (UpdateUtils.pass3 c).
Proof. symmetry. apply pass2_pass3_comm. Qed.

Lemma aor_sublist (pass f : string -> string) :
  acts_on_runs pass f ->
  (forall w : string, chars w `sublist_of` chars (f w)) ->
  forall s : string, chars s `sublist_of` chars (pass s).
Proof.
  intros [Hnon Hrun] Hf. apply run_induction.
  - intros pre Hpre. by rewrite Hnon.
  - intros pre w post Hpre Hw Hne Hpost IH.
    rewrite Hrun by done. rewrite !chars_app.
    apply sublist_app; [done|]. by apply sublist_app.
Qed.

Lemma aor_all (p : ascii -> bool) (pass f : string -> string) :
  acts_on_runs pass f ->
  (forall w : string, all p w = true -> all p (f w) = true) ->
  forall s : string, all p s = true -> all p (pass s) = true.
Proof.
  intros [Hnon Hrun] Hf. apply (run_induction (fun s => all p s = true -> _)).
  - intros pre Hpre Hall. by rewrite Hnon.
  - intros pre w post Hpre Hw Hne Hpost IH.
    rewrite Hrun by done. rewrite !all_app.
    intros [H1 [H2 H3]%andb_true_iff]%andb_true_iff.
    by rewrite H1, (Hf w H2), (IH H3).
Qed.

Lemma prefix_if_sublist (names : list string) (w : string) :
  chars w `sublist_of` chars (prefix_if names w).
Proof.
  unfold prefix_if. destruct (existsb _ names); [|done].
  rewrite chars_app. by apply sublist_inserts_l.
Qed.

Lemma prefix_if_quote_free (names : list string) (w : string) :
  quote_free w = true -> quote_free (prefix_if names w) = true.
Proof.
  intros Hw. unfold prefix_if. destruct (existsb _ names); [|done].
  unfold quote_free. rewrite all_app. fold (quote_free w). by rewrite Hw.
Qed.

(** X17. Pass 2 and Pass 3 only insert text: on every content the old
    characters are all there afterwards, in the same order, and no quote
    character is added (a content without quotes stays without quotes). *)
Theorem name_passes_only_insert (c : string) :
  chars c `sublist_of` chars (UpdateUtils.pass2 c) /\
  chars c `sublist_of` chars (UpdateUtils.pass3 c) /\
  (quote_free c = true ->
   quote_free (UpdateUtils.pass2 c) = true /\
   quote_free (UpdateUtils.pass3 c) = true).
Proof.
  split; [|split].
  - apply (aor_sublist _ _ pass2_acts_on_runs). apply prefix_if_sublist.
  - apply (aor_sublist _ _ pass3_acts_on_runs). apply prefix_if_sublist.
  - intros Hc. split.
    + apply (aor_all _ _ _ pass2_acts_on_runs); [|done].
      apply prefix_if_quote_free.
    + apply (aor_all _ _ _ pass3_acts_on_runs); [|done].
      apply prefix_if_quote_free.
Qed.

(** ** Pass 1 *)

(** X18. Pass 1 changes nothing in a content without quote characters. *)
Theorem pass1_quote_free (c : string) :
  quote_free c = true -> UpdateUtils.pass1 c = c.
Proof. intros Hc. by apply sub_include_quote_free. Qed.

Lemma pass1_quote_free_witness :
  UpdateUtils.pass1 "include(Foo); include(CoreUtils)" =
    "include(Foo); include(CoreUtils)".
Proof. apply (pass1_quote_free "include(Foo); include(CoreUtils)"). reflexivity. Defined.

Lemma pass1_call_alone (x : string) (q1 q2 : ascii) :
  is_quote q1 = true -> is_quote q2 = true ->
  x <> "" -> quote_free x = true ->
  UpdateUtils.pass1 (include_call q1 x q2) = include_call dq ("Utils_" +:+ x) dq.
Proof.
  intros Hq1 Hq2 Hx Hfree.
  pose proof (pass1_include_call "" "" x q1 q2 eq_refl Hq1 Hq2 Hx Hfree) as H.
  rewrite append_nil_r in H. simpl in H. rewrite H.
  change (UpdateUtils.pass1 "") with "". by rewrite append_nil_r.
Qed.

Lemma prefixed_quote_free (n : nat) (x : string) :
  x <> "" -> quote_free x = true ->
  prefixed n x <> "" /\ quote_free (prefixed n x) = true.
Proof.
  intros Hx Hfree. induction n as [|n [IH1 IH2]]; [done|].
  split; [done|]. cbn [prefixed]. unfold quote_free. rewrite all_app.
  fold (quote_free (prefixed n x)). by rewrite IH2.
Qed.

(** X19. Every run of Pass 1 puts one more [Utils_] before the argument of
    an include call: after [n + 1] runs the argument [X] carries [n + 1]
    prefixes, in double quotes. *)
Theorem pass1_prefix_per_run (n : nat) (x : string) (q1 q2 : ascii) :
  is_quote q1 = true -> is_quote q2 = true ->
  x <> "" -> quote_free x = true ->
  iterate (S n) UpdateUtils.pass1 (include_call q1 x q2) =
    include_call dq (prefixed (S n) x) dq.
Proof.
  intros Hq1 Hq2 Hx Hfree. induction n as [|n IH].
  - by apply pass1_call_alone.
  - cbn [iterate] in *. rewrite IH.
    destruct (prefixed_quote_free (S n) x Hx Hfree) as [H1 H2].
    by rewrite pass1_call_alone.
Qed.

Lemma pass1_prefix_per_run_witness :
  iterate 3 UpdateUtils.pass1 (include_call sq "Foo" sq) =
    include_call dq "Utils_Utils_Utils_Foo" dq.
Proof.
  apply (pass1_prefix_per_run 2 "Foo" sq sq); vm_compute; congruence.
Defined.

(** ** The Reference Updater as a whole *)

Lemma rewritten_quote_free (c : string) :
  quote_free c = true ->
  rewritten c = UpdateUtils.pass3 (UpdateUtils.pass2 c) /\
  quote_free (rewritten c) = true /\
  rewritten (rewritten c) = rewritten c.
Proof.
  intros Hc.
  assert (H2 : quote_free (UpdateUtils.pass2 c) = true).
  { apply (aor_all _ _ _ pass2_acts_on_runs); [|done]. apply prefix_if_quote_free. }
  assert (H3 : quote_free (UpdateUtils.pass3 (UpdateUtils.pass2 c)) = true).
  { apply (aor_all _ _ _ pass3_acts_on_runs); [|done]. apply prefix_if_quote_free. }
  assert (E : rewritten c = UpdateUtils.pass3 (UpdateUtils.pass2 c)).
  { unfold rewritten. by rewrite (sub_include_quote_free _ c Hc None : UpdateUtils.pass1 c = c). }
  split; [exact E|]. rewrite E. split; [exact H3|].
  unfold rewritten.
  rewrite (sub_include_quote_free _ _ H3 None
             : UpdateUtils.pass1 (UpdateUtils.pass3 (UpdateUtils.pass2 c)) = _).
  rewrite pass2_pass3_comm.
  rewrite (pass_idempotent UpdateUtils.pass2 VARIABLE_NAMES pass2_acts_on_runs) by done.
  by rewrite (pass_idempotent UpdateUtils.pass3 SECTION_NAMES pass3_acts_on_runs).
Qed.

(** X20. On a content without quote characters the Reference Updater's
    rewrite is Pass 2 followed by Pass 3, keeps the content free of quotes,
    and is idempotent: the prefix is injected again on a rerun only through
    include calls. *)
Theorem updater_idempotent_without_quotes (c : string) :
  quote_free c = true ->
  rewritten c = UpdateUtils.pass3 (UpdateUtils.pass2 c) /\
  quote_free (rewritten c) = true /\
  rewritten (rewritten c) = rewritten c.
Proof. apply rewritten_quote_free. Qed.

Lemma updater_idempotent_without_quotes_witness :
  rewritten (rewritten "DataUtils.formatDate(MarketSentiment.date)") =
    rewritten "DataUtils.formatDate(MarketSentiment.date)".
Proof.
  apply (updater_idempotent_without_quotes
           "DataUtils.formatDate(MarketSentiment.date)").
  reflexivity.
Defined.

(** X21. Rerunning the Reference Updater is harmless where no listed file
    holds a quote character: the second run ends without an exception, prints
    the same lines again and leaves every file as the first run left it. *)
Theorem updater_rerun_without_quotes (w : world) :
  (forall name c : string,
     name ∈ UpdateUtils.files_to_update ->
     files w !! name = Some c -> quote_free c = true) ->
  exists w1 w2 : world,
    UpdateUtils.main w = (inr tt, w1) /\
    UpdateUtils.main w1 = (inr tt, w2) /\
    files w2 = files w1 /\
    stdout w2 =
      stdout w1 ++
      (String.append "Updated: " <$>
         filter (on_disk w) UpdateUtils.files_to_update).
Proof.
  intros Hfree.
  destruct (for_each_loop_body UpdateUtils.update_file_content _
              update_update_file_content_spec _ files_to_update_NoDup w)
    as (w1 & E1 & Hout1 & Hfiles1).
  destruct (for_each_loop_body UpdateUtils.update_file_content _
              update_update_file_content_spec _ files_to_update_NoDup w1)
    as (w2 & E2 & Hout2 & Hfiles2).
  exists w1, w2. split; [exact E1|]. split; [exact E2|]. split.
  - apply map_eq. intros name. rewrite Hfiles2.
    destruct (decide (name ∈ RemoveFacade.files_to_update)) as [Hin|]; [|done].
    rewrite Hfiles1, decide_True by done.
    destruct (files w !! name) as [c|] eqn:Hc; [|done]. cbn.
    f_equal. by apply rewritten_quote_free, (Hfree name).
  - rewrite Hout2. do 2 f_equal. apply filter_on_disk_ext.
    intros name Hin. unfold on_disk. rewrite Hfiles1, decide_True by done.
    by rewrite fmap_is_Some.
Qed.

Lemma updater_rerun_without_quotes_witness :
  exists w1 w2 : world,
    UpdateUtils.main plain_code_world = (inr tt, w1) /\
    UpdateUtils.main w1 = (inr tt, w2) /\
    files w2 = files w1 /\
    stdout w2 = stdout w1 ++ ["Updated: Code.gs"].
Proof.
  apply (updater_rerun_without_quotes plain_code_world).
  intros name c _ Hc. unfold plain_code_world in Hc. cbn [files] in Hc.
  apply lookup_insert_Some in Hc as [[_ <-]|[_ Hc]]; [reflexivity|].
  by rewrite lookup_empty in Hc.
Defined.


Lemma remover_facade_missing_witness :
  exists w1 : world,
    RemoveFacade.main facade_call_world =
      (inl (FileNotFoundError "Utils_Main.gs"), w1) /\
    stdout w1 = ["Updated: Code.gs"] /\
    files w1 !! "Code.gs" = Some "callThing()".
Proof.
  destruct (remover_facade_missing facade_call_world) as (w1 & E & Hout & Hfiles);
    [reflexivity|].
  exists w1. split; [exact E|]. split; [exact Hout|]. exact (Hfiles "Code.gs").
Defined.

Lemma remover_rerun_fails_witness :
  exists w1 w2 : world,
    RemoveFacade.main facade_world = (inr tt, w1) /\
    RemoveFacade.main w1 = (inl (FileNotFoundError "Utils_Main.gs"), w2) /\
    stdout w2 = ["Updated: Code.gs"; "Updated: Code.gs"].
Proof.
  apply (remover_rerun_fails facade_world). by eexists.
Defined.

Lemma name_passes_only_insert_witness :
  quote_free (UpdateUtils.pass2 "x = CoreUtils.f(DataUtils)") = true /\
  quote_free (UpdateUtils.pass3 "x = CoreUtils.f(DataUtils)") = true.
Proof.
  apply (proj2 (proj2 (name_passes_only_insert "x = CoreUtils.f(DataUtils)"))).
  reflexivity.
Defined.
